(** * Wedding Album Studio: layout engine, unit conversion and export compositor

    A shallow embedding of [src/lib/layouts.ts], of the utility functions of
    the album types module and of [handleExport] of the export dialog,
    together with the properties the specification states about them.

    JavaScript numbers are modelled as exact rationals ([Q]): every
    arithmetic operation of the source is kept, with its rounding error
    left out.  Equality of numbers is therefore [Qeq] ([==]). *)

From Stdlib Require Import QArith Qround Qabs Lqa ZArith Lia List Bool Sorted Ascii.
From stdpp Require Import base option list strings gmap pretty.

Local Open Scope Q_scope.

(** ** Numbers *)

(** [Math.round]: the nearest integer, halves going up. *)
Definition Math_round (x : Q) : Q := inject_Z (Qfloor (x + (1 # 2))).

(** [a > b] on numbers. *)
Definition Qgtb (a b : Q) : bool := negb (Qle_bool a b).

(** [a !== 0] on numbers. *)
Definition Qnonzero (a : Q) : bool := negb (Qeq_bool a 0).

(** ** Album types *)

Record AlbumSize := mkAlbumSize {
  size_id : string;
  size_name : string;
  size_width : Q;   (* inches *)
  size_height : Q;  (* inches *)
  isPreset : bool
}.

Record GutterSettings := mkGutterSettings {
  enabled : bool;
  widthInches : Q
}.

Record Album := mkAlbum {
  album_id : string;
  album_name : string;
  size : AlbumSize;
  dpi : Q;
  gutter : GutterSettings;
  spreadIds : list string
}.

(** [Omit<PhotoFrame, 'id' | 'photoId'>]: what a template produces. *)
Record FrameGeometry := mkFrameGeometry {
  x : Q;
  y : Q;
  width : Q;
  height : Q;
  rotation : Q;
  scaleX : Q;
  scaleY : Q;
  imageOffsetX : Q;
  imageOffsetY : Q;
  imageScale : Q;
  locked : bool;
  zIndex : Z;
  brightness : Q;
  contrast : Q;
  temperature : Q;
  vibrance : Q
}.

Record PhotoFrame := mkPhotoFrame {
  frame_id : string;
  photoId : string;
  geometry : FrameGeometry
}.

Record Photo := mkPhoto {
  photo_id : string;
  photo_albumId : string;
  filename : string;
  photo_width : Q;
  photo_height : Q
}.

(** ** Unit conversion *)

Definition inchesToPixels (inches dpi : Q) : Q := Math_round (inches * dpi).

Definition pixelsToInches (pixels dpi : Q) : Q := pixels / dpi.

Definition getCanvasDimensions (album : Album) : Q * Q :=
  (inchesToPixels (size_width (size album)) (dpi album),
   inchesToPixels (size_height (size album)) (dpi album)).

Definition getGutterPixels (album : Album) : Q :=
  if negb (enabled (gutter album)) then 0
  else inchesToPixels (widthInches (gutter album)) (dpi album).

(** ** Layout templates *)

Record LayoutTemplate := mkLayoutTemplate {
  id : string;
  name : string;
  photoCount : Z;
  generateFrames : Q -> Q -> Q -> Q -> list FrameGeometry
}.

Definition MARGIN : Q := 60.
Definition SPACING : Q := 20.

(** The fields every template sets to the same constants. *)
Definition rect (x y width height : Q) (zIndex : Z) : FrameGeometry :=
  {| x := x; y := y; width := width; height := height;
     rotation := 0; scaleX := 1; scaleY := 1;
     imageOffsetX := 0; imageOffsetY := 0; imageScale := 1;
     locked := false; zIndex := zIndex;
     brightness := 0; contrast := 0; temperature := 0; vibrance := 0 |}.

Definition single_full : LayoutTemplate :=
  {| id := "single-full"; name := "Single Full Bleed"; photoCount := 1;
     generateFrames := fun w h gutter margin => [ rect 0 0 w h 0 ] |}.

Definition two_side_by_side : LayoutTemplate :=
  {| id := "two-side-by-side"; name := "Two Side by Side"; photoCount := 2;
     generateFrames := fun w h gutter margin =>
       let halfWidth := (w - gutter) / 2 - margin in
       let frameHeight := h - margin * 2 in
       [ rect margin margin (halfWidth - SPACING / 2) frameHeight 0;
         rect (w / 2 + gutter / 2 + SPACING / 2) margin
              (halfWidth - SPACING / 2) frameHeight 1 ] |}.

Definition three_one_two : LayoutTemplate :=
  {| id := "three-one-two"; name := "One Large + Two Small"; photoCount := 3;
     generateFrames := fun w h gutter margin =>
       let leftWidth := (w - gutter) / 2 - margin in
       let rightWidth := (w - gutter) / 2 - margin in
       let smallHeight := (h - margin * 2 - SPACING) / 2 in
       [ rect margin margin (leftWidth - SPACING / 2) (h - margin * 2) 0;
         rect (w / 2 + gutter / 2 + SPACING / 2) margin
              (rightWidth - SPACING / 2) smallHeight 1;
         rect (w / 2 + gutter / 2 + SPACING / 2) (margin + smallHeight + SPACING)
              (rightWidth - SPACING / 2) smallHeight 2 ] |}.

Definition four_grid : LayoutTemplate :=
  {| id := "four-grid"; name := "Four Grid"; photoCount := 4;
     generateFrames := fun w h gutter margin =>
       let halfWidth := (w - gutter) / 2 - margin - SPACING / 2 in
       let halfHeight := (h - margin * 2 - SPACING) / 2 in
       [ rect margin margin (halfWidth / 2 - SPACING / 4) halfHeight 0;
         rect (margin + halfWidth / 2 + SPACING / 2) margin
              (halfWidth / 2 - SPACING / 4) halfHeight 1;
         rect (w / 2 + gutter / 2 + SPACING / 2) margin
              (halfWidth / 2 - SPACING / 4) halfHeight 2;
         rect (w / 2 + gutter / 2 + SPACING / 2 + halfWidth / 2 + SPACING / 2) margin
              (halfWidth / 2 - SPACING / 4) halfHeight 3 ] |}.

Definition six_mosaic : LayoutTemplate :=
  {| id := "six-mosaic"; name := "Six Mosaic"; photoCount := 6;
     generateFrames := fun w h gutter margin =>
       let leftWidth := (w - gutter) / 2 - margin in
       let rightWidth := (w - gutter) / 2 - margin in
       let thirdHeight := (h - margin * 2 - SPACING * 2) / 3 in
       let halfHeight := (h - margin * 2 - SPACING) / 2 in
       [ (* left side, three stacked *)
         rect margin margin (leftWidth / 2 - SPACING / 2) thirdHeight 0;
         rect margin (margin + thirdHeight + SPACING)
              (leftWidth / 2 - SPACING / 2) thirdHeight 1;
         rect margin (margin + thirdHeight * 2 + SPACING * 2)
              (leftWidth / 2 - SPACING / 2) thirdHeight 2;
         (* left side, one tall *)
         rect (margin + leftWidth / 2 + SPACING / 2) margin
              (leftWidth / 2 - SPACING) (h - margin * 2) 3;
         (* right side, two stacked *)
         rect (w / 2 + gutter / 2 + SPACING / 2) margin
              (rightWidth - SPACING / 2) halfHeight 4;
         rect (w / 2 + gutter / 2 + SPACING / 2) (margin + halfHeight + SPACING)
              (rightWidth - SPACING / 2) halfHeight 5 ] |}.

Definition LAYOUT_TEMPLATES : list LayoutTemplate :=
  [ single_full; two_side_by_side; three_one_two; four_grid; six_mosaic ].

(** ** Template selection *)

(** [Array.prototype.sort] with a comparator returning a number.  The sort
    is stable, and a stable sort has one possible result for a comparator
    that orders by a key, so a stable insertion sort stands for it. *)
Section Sort.
Context {A : Type} (compareFn : A -> A -> Z).

Fixpoint sort_insert (a : A) (l : list A) : list A :=
  match l with
  | [] => [a]
  | b :: l' =>
      if (compareFn a b <=? 0)%Z then a :: b :: l'
      else b :: sort_insert a l'
  end.

Fixpoint sort (l : list A) : list A :=
  match l with
  | [] => []
  | a :: l' => sort_insert a (sort l')
  end.

End Sort.

(** [None] stands for [undefined] ([sorted[0]] of an empty array). *)
Definition getLayoutForPhotoCount (count : Z) : option LayoutTemplate :=
  match List.find (fun t => (photoCount t =? count)%Z) LAYOUT_TEMPLATES with
  | Some exact => Some exact
  | None =>
      (* Find closest layout *)
      let sorted :=
        sort (fun a b => (Z.abs (photoCount a - count)
                          - Z.abs (photoCount b - count))%Z)
             LAYOUT_TEMPLATES in
      sorted !! 0%nat
  end.

(** ** Frame instantiation *)

(** [uuidv4()] draws a fresh identifier.  The source of identifiers is an
    oracle indexed by the number of identifiers drawn so far, and that
    number is the state threaded through the functions that draw them. *)
Definition Uuid (A : Type) : Type := nat -> A * nat.

Definition uret {A} (a : A) : Uuid A := fun n => (a, n).

Definition ubind {A B} (m : Uuid A) (k : A -> Uuid B) : Uuid B :=
  fun n => let '(a, n') := m n in k a n'.

(** [array.map(f)] where [f] draws identifiers: left to right, with the
    index of the element. *)
Fixpoint mapi_uuid {A B} (f : A -> nat -> Uuid B) (index : nat) (l : list A)
  : Uuid (list B) :=
  match l with
  | [] => uret []
  | a :: l' =>
      ubind (f a index) (fun b =>
      ubind (mapi_uuid f (S index) l') (fun bs => uret (b :: bs)))
  end.

(** [array.slice(start, end)] for indices that are not negative. *)
Definition slice {A} (start stop : nat) (l : list A) : list A :=
  take (stop - start) (drop start l).

(** [s || ''] on strings: the empty string is falsy. *)
Definition or_empty (s : option string) : string :=
  match s with
  | Some s' => if String.eqb s' EmptyString then EmptyString else s'
  | None => EmptyString
  end.

(** ** Batch spread generation *)

(** How a run of the loop ends: with a value, with the [TypeError] of
    calling a method of [undefined], or still running when the fuel is
    spent. *)
Inductive run (A : Type) : Type :=
| Returned (a : A)
| TypeError
| OutOfFuel.
Arguments Returned {A} a.
Arguments TypeError {A}.
Arguments OutOfFuel {A}.

Record SpreadFrames := mkSpreadFrames { frames : list PhotoFrame }.

Section WithUuid.
Variable uuidv4_nth : nat -> string.

Definition uuidv4 : Uuid string := fun n => (uuidv4_nth n, S n).

(** The caller passes [margin]; [MARGIN] is what it defaults to when
    left out. *)
Definition generateFramesForLayout (template : LayoutTemplate)
    (photos : list Photo) (canvasWidth canvasHeight gutterWidth margin : Q)
  : Uuid (list PhotoFrame) :=
  let templateFrames :=
    generateFrames template canvasWidth canvasHeight gutterWidth margin in
  mapi_uuid
    (fun frame index =>
       ubind uuidv4 (fun fresh =>
       uret {| frame_id := fresh;
               photoId := or_empty (photo_id <$> photos !! index);
               geometry := frame |}))
    0 (slice 0 (length photos) templateFrames).

(** The [for (let i = 0; i < photos.length; i += photosPerSpread)] loop,
    entered at [i] with the spreads pushed so far. *)
Fixpoint autoGenerateSpreads_loop (fuel : nat) (photos : list Photo)
    (photosPerSpread : nat) (width height gutterWidth margin : Q)
    (i : nat) (spreads : list SpreadFrames) (n : nat)
  : run (list SpreadFrames) :=
  match fuel with
  | O => OutOfFuel
  | S fuel' =>
      if (i <? length photos)%nat then
        let spreadPhotos := slice i (i + photosPerSpread) photos in
        match getLayoutForPhotoCount (Z.of_nat (length spreadPhotos)) with
        | None => TypeError
        | Some template =>
            let '(frames, n') :=
              generateFramesForLayout template spreadPhotos
                width height gutterWidth margin n in
            autoGenerateSpreads_loop fuel' photos photosPerSpread
              width height gutterWidth margin
              (i + photosPerSpread)%nat
              (spreads ++ [ {| frames := frames |} ]) n'
        end
      else Returned spreads
  end.

Definition autoGenerateSpreads (fuel : nat) (photos : list Photo)
    (photosPerSpread : nat) (album : Album) (n : nat)
  : run (list SpreadFrames) :=
  let '(width, height) := getCanvasDimensions album in
  let gutterWidth := getGutterPixels album in
  let margin := Math_round (dpi album * (2 # 10)) in (* 0.2 inch margin *)
  autoGenerateSpreads_loop fuel photos photosPerSpread
    width height gutterWidth margin 0 [] n.

End WithUuid.

(** ** Export compositor *)

Record Spread := mkSpread {
  spread_id : string;
  albumId : string;
  orderIndex : Z;
  spread_frames : list PhotoFrame
}.

(** The two fields of an [HTMLImageElement] the compositor reads. *)
Record Image := mkImage {
  img_width : Q;
  img_height : Q
}.

Inductive ExportFormat := png | jpeg.
Inductive ExportScope := current | all.

(** The calls made on the 2D context, in the order they are made.
    [Rotate] carries the angle in degrees; the context receives
    [degrees * Math.PI / 180].  [Filter] carries the two factors of the
    [brightness(..) contrast(..)] filter string. *)
Inductive CanvasOp :=
| FillStyle (colour : string)
| FillRect (x y w h : Q)
| Save
| BeginPath
| Rect (x y w h : Q)
| Clip
| Translate (x y : Q)
| Rotate (degrees : Q)
| Filter (brightnessFactor contrastFactor : Q)
| DrawImage (img : Image) (dx dy dWidth dHeight : Q)
| Restore.

(** What [handleExport] does that can be observed from outside. *)
Inductive Event :=
| SetIsExporting (b : bool)
| SetProgress (percent : Q)
| SetCompleted (b : bool)
| CreateCanvas (w h : Q)
| Ctx (op : CanvasOp)
| ConsoleError (message : string) (subject : string)
| Download (albumName : string) (spreadIndex : nat) (format : ExportFormat)
| ToastSuccess (exported : nat)
| ToastError.

(** The per-frame cover fit: the scale and the two centring offsets. *)
Record CoverFit := mkCoverFit {
  scale : Q;
  offsetX : Q;
  offsetY : Q
}.

Definition coverFit (frame : FrameGeometry) (img : Image) : CoverFit :=
  let imgAspect := img_width img / img_height img in
  let frameAspect := width frame / height frame in
  if Qgtb imgAspect frameAspect then
    let scale := height frame / img_height img in
    {| scale := scale;
       offsetX := (width frame - img_width img * scale) / 2;
       offsetY := 0 |}
  else
    let scale := width frame / img_width img in
    {| scale := scale;
       offsetX := 0;
       offsetY := (height frame - img_height img * scale) / 2 |}.

(** How a block of statements completes: normally, by [continue], or by
    throwing. *)
Inductive completion (A : Type) : Type :=
| Normal (a : A)
| Continue
| Throw (error : string).
Arguments Normal {A} a.
Arguments Continue {A}.
Arguments Throw {A} error.

(** A block: the events it emits and how it completes. *)
Definition Eff (A : Type) : Type := list Event * completion A.

Definition ret {A} (a : A) : Eff A := ([], Normal a).

Definition bind {A B} (m : Eff A) (k : A -> Eff B) : Eff B :=
  match m with
  | (es, Normal a) => let '(es', c) := k a in (es ++ es', c)
  | (es, Continue) => (es, Continue)
  | (es, Throw e) => (es, Throw e)
  end.

Definition emit (e : Event) : Eff unit := ([e], Normal tt).
Definition continue {A} : Eff A := ([], Continue).
Definition throw {A} (error : string) : Eff A := ([], Throw error).

Notation "'let*' x ':=' m 'in' k" := (bind m (fun x => k))
  (at level 10, x name, m at level 100, k at level 200).
Notation "m ';;' k" := (bind m (fun _ => k))
  (at level 100, k at level 200, right associativity).

(** [when c m]: [if (c) { m }]. *)
Definition when (c : bool) (m : Eff unit) : Eff unit :=
  if c then m else ret tt.

(** [try { body } catch (error) { handler }]: a [continue] passes
    through, a throw runs the handler. *)
Definition try_catch (body : Eff unit) (handler : string -> Eff unit)
  : Eff unit :=
  match body with
  | (es, Throw e) => let '(es', c) := handler e in (es ++ es', c)
  | other => other
  end.

(** [for (const a of l) { body a }]: a [continue] ends the iteration, a
    throw ends the loop. *)
Fixpoint for_of {A} (l : list A) (body : A -> Eff unit) : Eff unit :=
  match l with
  | [] => ret tt
  | a :: l' =>
      match body a with
      | (es, Throw e) => (es, Throw e)
      | (es, _) => let '(es', c) := for_of l' body in (es ++ es', c)
      end
  end.

(** An awaited promise, settled. *)
Inductive settled (A : Type) : Type :=
| Resolved (a : A)
| Rejected (reason : string).
Arguments Resolved {A} a.
Arguments Rejected {A} reason.

Definition await {A} (p : settled A) : Eff A :=
  match p with
  | Resolved a => ret a
  | Rejected reason => throw reason
  end.

(** The collaborators of [handleExport]: the preview URL map it is
    handed, the blob store, the image decoder, whether [ctx.drawImage]
    accepts an image (the error it throws, if any), and the blob
    [canvas.toBlob] hands to its callback for the spread at a position.
    [Blob] is the image bytes as the store hands them out. *)
Record Collaborators := mkCollaborators {
  Blob : Type;
  photoUrls : gmap string string;
  getPhotoBlob : string -> settled (option Blob);
  loadImage : Blob -> settled Image;
  drawImage_throws : Image -> option string;
  toBlob : nat -> option Blob
}.

Section HandleExport.
Variable env : Collaborators.

(** The [try] block of one frame. *)
Definition drawFrame_try (frame : PhotoFrame) : Eff unit :=
  let g := geometry frame in
  let* blob := await (getPhotoBlob env (photoId frame)) in
  match blob with
  | None => continue
  | Some blob =>
      let* img := await (loadImage env blob) in
      emit (Ctx Save) ;;
      emit (Ctx BeginPath) ;;
      emit (Ctx (Rect (x g) (y g) (width g) (height g))) ;;
      emit (Ctx Clip) ;;
      let fit := coverFit g img in
      when (Qnonzero (rotation g))
        (emit (Ctx (Translate (x g + width g / 2) (y g + height g / 2))) ;;
         emit (Ctx (Rotate (rotation g))) ;;
         emit (Ctx (Translate (- (x g + width g / 2))
                              (- (y g + height g / 2))))) ;;
      when (Qnonzero (brightness g) || Qnonzero (contrast g))
        (emit (Ctx (Filter (1 + brightness g / 100)
                           (1 + contrast g / 100)))) ;;
      match drawImage_throws env img with
      | Some error => throw error
      | None =>
          emit (Ctx (DrawImage img
                       (x g + offsetX fit + imageOffsetX g)
                       (y g + offsetY fit + imageOffsetY g)
                       (img_width img * scale fit * imageScale g)
                       (img_height img * scale fit * imageScale g)))
      end ;;
      emit (Ctx Restore)
  end.

(** The body of [for (const frame of spread.frames)]. *)
Definition drawFrame (frame : PhotoFrame) : Eff unit :=
  match photoUrls env !! photoId frame with
  | None => continue
  | Some photoUrl =>
      if String.eqb photoUrl EmptyString then continue
      else
        try_catch (drawFrame_try frame)
          (fun error => emit (ConsoleError "Failed to draw frame:"
                                           (frame_id frame)))
  end.

(** The frames of one spread, painted in array order. *)
Definition drawFrames (frames : list PhotoFrame) : Eff unit :=
  for_of frames drawFrame.

(** The body of the export loop for the spread at position [i] of the
    [total] to process.  [None] is the [undefined] that indexing past the
    end of [spreads] gives; reading its [frames] throws. *)
Definition exportSpread (album : Album) (scope : ExportScope)
    (format : ExportFormat) (currentSpreadIndex : nat)
    (total : nat) (i : nat) (spread : option Spread) : Eff unit :=
  let '(canvasWidth, canvasHeight) := getCanvasDimensions album in
  emit (SetProgress (inject_Z (Z.of_nat i) / inject_Z (Z.of_nat total) * 100)) ;;
  emit (CreateCanvas canvasWidth canvasHeight) ;;
  (* White background *)
  emit (Ctx (FillStyle "#ffffff")) ;;
  emit (Ctx (FillRect 0 0 canvasWidth canvasHeight)) ;;
  match spread with
  | None => throw "TypeError"
  | Some spread => drawFrames (spread_frames spread)
  end ;;
  when (bool_decide (is_Some (toBlob env i)))
    (let spreadIndex :=
       match scope with
       | current => (currentSpreadIndex + 1)%nat
       | all => (i + 1)%nat
       end in
     emit (Download (album_name album) spreadIndex format)) ;;
  emit (SetProgress (inject_Z (Z.of_nat (i + 1)) / inject_Z (Z.of_nat total) * 100)).

(** [for (let i = 0; i < spreadsToProcess.length; i++)], entered at [i]
    with the spreads still to process. *)
Fixpoint exportLoop (album : Album) (scope : ExportScope)
    (format : ExportFormat) (currentSpreadIndex : nat)
    (total : nat) (i : nat) (rest : list (option Spread)) : Eff unit :=
  match rest with
  | [] => ret tt
  | spread :: rest' =>
      exportSpread album scope format currentSpreadIndex total i spread ;;
      exportLoop album scope format currentSpreadIndex total (S i) rest'
  end.

Definition handleExport (album : Album) (spreads : list Spread)
    (scope : ExportScope) (format : ExportFormat)
    (currentSpreadIndex : nat) : list Event :=
  let spreadsToExport :=
    match scope with current => 1%nat | all => length spreads end in
  let spreadsToProcess :=
    match scope with
    | current => [ spreads !! currentSpreadIndex ]
    | all => Some <$> spreads
    end in
  let body :=
    try_catch
      (exportLoop album scope format currentSpreadIndex
         (length spreadsToProcess) 0 spreadsToProcess ;;
       emit (SetCompleted true) ;;
       emit (ToastSuccess spreadsToExport))
      (fun error =>
         emit (ConsoleError "Export failed:" error) ;;
         emit ToastError) in
  [ SetIsExporting true; SetProgress 0; SetCompleted false ]
  ++ body.1 ++ [ SetIsExporting false ].

End HandleExport.

(** * Vocabulary of the specification *)

(** ** Frame rectangles *)

(** The extent of a rectangle lies within the canvas. *)
Definition in_canvas (w h : Q) (r : FrameGeometry) : Prop :=
  0 <= x r /\ x r <= w /\ 0 <= x r + width r /\ x r + width r <= w /\
  0 <= y r /\ y r <= h /\ 0 <= y r + height r /\ y r + height r <= h.

(** A point of the canvas lies in a rectangle, edges included. *)
Definition covers (r : FrameGeometry) (px py : Q) : Prop :=
  x r <= px /\ px <= x r + width r /\ y r <= py /\ py <= y r + height r.

(** Two rectangles overlap when they share a point. *)
Definition overlap (a b : FrameGeometry) : Prop :=
  exists px py, covers a px py /\ covers b px py.

(** A rectangle is clear of the gutter strip
    [[w/2 - g/2, w/2 + g/2]]: it lies wholly to its left or wholly to its
    right. *)
Definition clear_of_gutter (w g : Q) (r : FrameGeometry) : Prop :=
  x r + width r < w / 2 - g / 2 \/ w / 2 + g / 2 < x r.

(** ** Template selection *)

(** The distance from a requested count to the count of a template. *)
Definition distance (count : Z) (t : LayoutTemplate) : Z :=
  Z.abs (photoCount t - count).

(** [t], at position [i] of [l], is nearest to [count], and every
    template before it in [l] is strictly farther. *)
Definition first_nearest (count : Z) (l : list LayoutTemplate)
    (i : nat) (t : LayoutTemplate) : Prop :=
  l !! i = Some t /\
  forall (j : nat) (t' : LayoutTemplate), l !! j = Some t' ->
    (distance count t <= distance count t')%Z /\
    ((j < i)%nat -> distance count t < distance count t')%Z.

(** [ceil (a / b)] on natural numbers, for [b > 0]. *)
Definition div_up (a b : nat) : nat := (a + b - 1) / b.

(** ** Export *)

(** The percentages handed to [setProgress], in order. *)
Definition progress_values (events : list Event) : list Q :=
  omap (fun e => match e with SetProgress p => Some p | _ => None end) events.

(** The [drawImage] calls, in order. *)
Definition drawn_images (events : list Event) : list (Image * Q * Q * Q * Q) :=
  omap (fun e => match e with
                 | Ctx (DrawImage img dx dy dw dh) => Some (img, dx, dy, dw, dh)
                 | _ => None
                 end) events.

(** The events a frame can emit: context calls and console errors. *)
Definition frame_event (e : Event) : Prop :=
  match e with
  | Ctx _ | ConsoleError _ _ => True
  | _ => False
  end.

(** The image a frame resolves to: its photo has a preview URL, its blob
    is found in the store and decodes. *)
Definition resolveImage (env : Collaborators) (frame : PhotoFrame)
  : option Image :=
  match photoUrls env !! photoId frame with
  | None => None
  | Some photoUrl =>
      if String.eqb photoUrl EmptyString then None
      else match getPhotoBlob env (photoId frame) with
           | Resolved (Some blob) =>
               match loadImage env blob with
               | Resolved img => Some img
               | Rejected _ => None
               end
           | _ => None
           end
  end.

(** The [drawImage] call a frame is due, with the cover fit of its image:
    none when the image does not resolve or the call throws. *)
Definition due_drawImage (env : Collaborators) (frame : PhotoFrame)
  : option (Image * Q * Q * Q * Q) :=
  match resolveImage env frame with
  | None => None
  | Some img =>
      match drawImage_throws env img with
      | Some _ => None
      | None =>
          let g := geometry frame in
          let fit := coverFit g img in
          Some (img,
                x g + offsetX fit + imageOffsetX g,
                y g + offsetY fit + imageOffsetY g,
                img_width img * scale fit * imageScale g,
                img_height img * scale fit * imageScale g)
      end
  end.

(** How many [ctx.save()] calls are left without their [ctx.restore()]. *)
Definition unrestored (events : list Event) : Z :=
  foldr (fun e d => match e with
                    | Ctx Save => d + 1
                    | Ctx Restore => d - 1
                    | _ => d
                    end)%Z 0%Z events.

(** The two percentages reported around the spread at position [i]. *)
Definition progress_around (total i : nat) : list Q :=
  [ inject_Z (Z.of_nat i) / inject_Z (Z.of_nat total) * 100;
    inject_Z (Z.of_nat (i + 1)) / inject_Z (Z.of_nat total) * 100 ].

(** Rounding to one decimal place. *)
Definition round1 (q : Q) : Q := Math_round (q * 10) / 10.

(** * The rest of the export dialog, the store and the editor *)

(** ** Thumbnails *)

(** The size [createThumbnail] scales an image to: the longer side is
    brought down to [maxSize], the other side in proportion. *)
Definition thumbnailSize (width height maxSize : Q) : Q * Q :=
  if Qgtb width height then
    if Qgtb width maxSize then (maxSize, height * maxSize / width)
    else (width, height)
  else
    if Qgtb height maxSize then (width * maxSize / height, maxSize)
    else (width, height).

Local Close Scope Q_scope.

(** ** File names *)

(** [c] lies between [lo] and [hi] in code unit order. *)
Definition char_between (lo hi c : ascii) : bool :=
  (N_of_ascii lo <=? N_of_ascii c)%N && (N_of_ascii c <=? N_of_ascii hi)%N.

(** [c] matches [/[a-z0-9]/i]. *)
Definition matches_alnum (c : ascii) : bool :=
  char_between "a" "z" c || char_between "A" "Z" c || char_between "0" "9" c.

(** [toLowerCase] on one code unit of the ASCII range. *)
Definition toLowerCase_char (c : ascii) : ascii :=
  if char_between "A" "Z" c then ascii_of_N (N_of_ascii c + 32) else c.

Fixpoint string_map (f : ascii -> ascii) (s : string) : string :=
  match s with
  | EmptyString => EmptyString
  | String c s' => String (f c) (string_map f s')
  end.

(** [name.replace(/[^a-z0-9]/gi, '_').toLowerCase()], on names whose code
    units are below 256. *)
Definition safeName (name : string) : string :=
  string_map toLowerCase_char
    (string_map (fun c => if matches_alnum c then c else "_"%char) name).

Definition format_extension (format : ExportFormat) : string :=
  match format with
  | png => "png"
  | jpeg => "jpeg"
  end.

(** [link.download]: [`${safeName}_spread_${spreadIndex}.${format}`]. *)
Definition download_filename (albumName : string) (spreadIndex : nat)
    (format : ExportFormat) : string :=
  safeName albumName +:+ "_spread_" +:+ pretty spreadIndex +:+ "."
    +:+ format_extension format.

(** The characters of a sanitised name: lower-case letters, digits and
    the underscore. *)
Definition safe_char (c : ascii) : bool :=
  char_between "a" "z" c || char_between "0" "9" c || Ascii.eqb c "_".

Fixpoint string_forallb (p : ascii -> bool) (s : string) : bool :=
  match s with
  | EmptyString => true
  | String c s' => p c && string_forallb p s'
  end.

(** The downloads triggered, in order: album name, spread number and
    format. *)
Definition downloads (events : list Event) : list (string * nat * ExportFormat) :=
  omap (fun e => match e with
                 | Download albumName spreadIndex format =>
                     Some (albumName, spreadIndex, format)
                 | _ => None
                 end) events.

(** The events of the export loop: everything but the toasts and the
    [isExporting] and [completed] flags. *)
Definition loop_event (e : Event) : Prop :=
  match e with
  | SetProgress _ | CreateCanvas _ _ | Ctx _ | ConsoleError _ _
  | Download _ _ _ => True
  | _ => False
  end.

(** The [drawImage] call of a frame throws. *)
Definition drawImage_fails (env : Collaborators) (frame : PhotoFrame) : bool :=
  match resolveImage env frame with
  | Some img => bool_decide (is_Some (drawImage_throws env img))
  | None => false
  end.

(** The file names of a list of downloads. *)
Definition filenames (l : list (string * nat * ExportFormat)) : list string :=
  (fun d => download_filename d.1.1 d.1.2 d.2) <$> l.

(** ** The store *)

(** The four object stores of the database, each keyed by the [id] of
    its records.  [B] is the type of image bytes. *)
Record Database (B : Type) := mkDatabase {
  db_albums : gmap string Album;
  db_spreads : gmap string Spread;
  db_photos : gmap string Photo;
  db_photoBlobs : gmap string B
}.
Arguments mkDatabase {B} _ _ _ _.
Arguments db_albums {B} _.
Arguments db_spreads {B} _.
Arguments db_photos {B} _.
Arguments db_photoBlobs {B} _.

(** The order of two keys, as a comparator: negative, zero or positive. *)
Definition compare_keys (a b : string) : Z :=
  match String.compare a b with
  | Lt => -1
  | Eq => 0
  | Gt => 1
  end.

(** [db.getAllFromIndex(store, 'by-album', albumId)]: the records of an
    album, in the order of their keys. *)
Definition getAllFromIndex {V} (store : gmap string V) (owner : V -> string)
    (albumId : string) : list V :=
  snd <$> sort (fun a b => compare_keys (fst a) (fst b))
            (filter (fun kv => owner (snd kv) = albumId) (map_to_list store)).

Module Storage.
Section WithBlob.
Context {B : Type}.

(** [db.delete('spreads', id)] *)
Definition delete_spreads (id : string) (db : Database B) : Database B :=
  {| db_albums := db_albums db;
     db_spreads := delete id (db_spreads db);
     db_photos := db_photos db;
     db_photoBlobs := db_photoBlobs db |}.

(** [db.delete('photos', id)] *)
Definition delete_photos (id : string) (db : Database B) : Database B :=
  {| db_albums := db_albums db;
     db_spreads := db_spreads db;
     db_photos := delete id (db_photos db);
     db_photoBlobs := db_photoBlobs db |}.

(** [db.delete('photoBlobs', id)] *)
Definition delete_photoBlobs (id : string) (db : Database B) : Database B :=
  {| db_albums := db_albums db;
     db_spreads := db_spreads db;
     db_photos := db_photos db;
     db_photoBlobs := delete id (db_photoBlobs db) |}.

(** [db.delete('albums', id)] *)
Definition delete_albums (id : string) (db : Database B) : Database B :=
  {| db_albums := delete id (db_albums db);
     db_spreads := db_spreads db;
     db_photos := db_photos db;
     db_photoBlobs := db_photoBlobs db |}.

Definition getAlbum (db : Database B) (id : string) : option Album :=
  db_albums db !! id.

Definition deleteAlbum (db : Database B) (id : string) : Database B :=
  (* Delete all spreads for this album *)
  let spreads := getAllFromIndex (db_spreads db) albumId id in
  let db := foldl (fun db spread => delete_spreads (spread_id spread) db)
              db spreads in
  (* Delete all photos for this album *)
  let photos := getAllFromIndex (db_photos db) photo_albumId id in
  let db := foldl (fun db photo =>
                     delete_photoBlobs (photo_id photo)
                       (delete_photos (photo_id photo) db))
              db photos in
  (* Delete the album *)
  delete_albums id db.

(** The [Spread] record of this development has no [updatedAt]: on the
    fields it has, the spread stored is the spread given. *)
Definition saveSpread (db : Database B) (spread : Spread) : Database B :=
  {| db_albums := db_albums db;
     db_spreads := <[spread_id spread := spread]> (db_spreads db);
     db_photos := db_photos db;
     db_photoBlobs := db_photoBlobs db |}.

Definition getSpread (db : Database B) (id : string) : option Spread :=
  db_spreads db !! id.

Definition getAlbumSpreads (db : Database B) (id : string) : list Spread :=
  let spreads := getAllFromIndex (db_spreads db) albumId id in
  sort (fun a b => (orderIndex a - orderIndex b)%Z) spreads.

Definition deleteSpread (db : Database B) (id : string) : Database B :=
  delete_spreads id db.

Definition savePhoto (db : Database B) (photo : Photo) (blob : B)
  : Database B :=
  {| db_albums := db_albums db;
     db_spreads := db_spreads db;
     db_photos := <[photo_id photo := photo]> (db_photos db);
     db_photoBlobs := <[photo_id photo := blob]> (db_photoBlobs db) |}.

Definition getPhoto (db : Database B) (id : string) : option Photo :=
  db_photos db !! id.

(** [record?.blob] of the record under [id], if any. *)
Definition getPhotoBlob (db : Database B) (id : string) : option B :=
  db_photoBlobs db !! id.

Definition getAlbumPhotos (db : Database B) (id : string) : list Photo :=
  getAllFromIndex (db_photos db) photo_albumId id.

Definition deletePhoto (db : Database B) (id : string) : Database B :=
  delete_photoBlobs id (delete_photos id db).

End WithBlob.
End Storage.

(** Every spread and photo is stored under its own [id]. *)
Definition well_keyed {B} (db : Database B) : Prop :=
  (forall k s, db_spreads db !! k = Some s -> spread_id s = k) /\
  (forall k p, db_photos db !! k = Some p -> photo_id p = k).

(** ** The album editor and the auto-layout dialog *)

(** [array.filter((_, i) => p(i))]: the elements at the positions [p]
    accepts. *)
Fixpoint filter_index_from {A} (p : nat -> bool) (i : nat) (l : list A)
  : list A :=
  match l with
  | [] => []
  | a :: l' =>
      if p i then a :: filter_index_from p (S i) l'
      else filter_index_from p (S i) l'
  end.

Definition filter_index {A} (p : nat -> bool) (l : list A) : list A :=
  filter_index_from p 0 l.

(** The state of the album editor that its handlers read and write. *)
Record EditorState := mkEditorState {
  st_album : option Album;
  st_spreads : list Spread;
  st_photos : list Photo;
  st_currentSpreadIndex : nat;
  st_selectedPhotoIds : list string;
  st_selectedFrameId : option string
}.

(** The updater [handleSelectPhoto] hands to [setSelectedPhotoIds]. *)
Definition handleSelectPhoto (photoId : string) (multiSelect : bool)
    (prev : list string) : list string :=
  if multiSelect then
    if bool_decide (photoId ∈ prev)
    then filter (fun id => id <> photoId) prev
    else prev ++ [ photoId ]
  else
    if bool_decide (photoId ∈ prev) && (length prev =? 1)%nat
    then []
    else [ photoId ].

(** What the auto-layout dialog hands to [onApplyLayout], per frame. *)
Record LayoutResult := mkLayoutResult {
  result_photoId : string;
  frameData : PhotoFrame
}.

(** The template the auto-layout dialog first selects.  [None] is the
    [TypeError] of reading [id] of a missing first template. *)
Definition initialSelectedTemplate (selectedPhotos : list Photo)
  : option string :=
  let photosPerSpread := Nat.min (length selectedPhotos) 4 in
  match List.find (fun t => (photoCount t =? Z.of_nat photosPerSpread)%Z)
          LAYOUT_TEMPLATES with
  | Some t =>
      if String.eqb (id t) EmptyString then id <$> LAYOUT_TEMPLATES !! 0%nat
      else Some (id t)
  | None => id <$> LAYOUT_TEMPLATES !! 0%nat
  end.

Definition applicableTemplates (selectedPhotos : list Photo)
  : list LayoutTemplate :=
  filter (fun t => (photoCount t <= Z.of_nat (length selectedPhotos))%Z)
    LAYOUT_TEMPLATES.

Section Editor.
Variable uuidv4_nth : nat -> string.
Context {B : Type}.

(** [handleApply] of the auto-layout dialog: what it hands to
    [onApplyLayout], or [None] when it returns without calling it. *)
Definition handleApply (selectedTemplate : string) (selectedPhotos : list Photo)
    (album : Album) : Uuid (option (list LayoutResult)) :=
  let '(width, height) := getCanvasDimensions album in
  let gutterWidth := getGutterPixels album in
  let margin := Math_round (dpi album * (2 # 10)) in
  match List.find (fun t => String.eqb (id t) selectedTemplate)
          LAYOUT_TEMPLATES with
  | None => uret None
  | Some template =>
      ubind (generateFramesForLayout uuidv4_nth template
               (slice 0 (Z.to_nat (photoCount template)) selectedPhotos)
               width height gutterWidth margin)
        (fun frames =>
           uret (Some (imap (fun index frame =>
                   {| result_photoId :=
                        or_empty (photo_id <$> selectedPhotos !! index);
                      frameData := frame |}) frames)))
  end.

(** [handleAddSpread]: the store and the editor state after it. *)
Definition handleAddSpread (db : Database B) (st : EditorState)
  : Uuid (Database B * EditorState) :=
  match st_album st with
  | None => uret (db, st)
  | Some album =>
      ubind (uuidv4 uuidv4_nth) (fun fresh =>
      let spread :=
        {| spread_id := fresh;
           albumId := album_id album;
           orderIndex := Z.of_nat (length (st_spreads st));
           spread_frames := [] |} in
      uret (Storage.saveSpread db spread,
            {| st_album := st_album st;
               st_spreads := st_spreads st ++ [ spread ];
               st_photos := st_photos st;
               st_currentSpreadIndex := length (st_spreads st);
               st_selectedPhotoIds := st_selectedPhotoIds st;
               st_selectedFrameId := st_selectedFrameId st |}))
  end.

(** [handleDeleteSpread]: [None] is the [TypeError] of reading [id] of
    the spread at an index past the end. *)
Definition handleDeleteSpread (index : nat) (db : Database B)
    (st : EditorState) : option (Database B * EditorState) :=
  match st_spreads st !! index with
  | None => None
  | Some spread =>
      Some (Storage.deleteSpread db (spread_id spread),
            {| st_album := st_album st;
               st_spreads :=
                 filter_index (fun i => negb (i =? index)%nat) (st_spreads st);
               st_photos := st_photos st;
               st_currentSpreadIndex :=
                 if (length (st_spreads st) - 1 <=? st_currentSpreadIndex st)%nat
                 then Nat.max 0 (length (st_spreads st) - 2)
                 else st_currentSpreadIndex st;
               st_selectedPhotoIds := st_selectedPhotoIds st;
               st_selectedFrameId := st_selectedFrameId st |})
  end.

(** [handleApplyLayout]: the store and the editor state after it. *)
Definition handleApplyLayout (frames : list LayoutResult) (db : Database B)
    (st : EditorState) : Uuid (Database B * EditorState) :=
  match st_album st with
  | None => uret (db, st)
  | Some album =>
      ubind (uuidv4 uuidv4_nth) (fun fresh =>
      ubind (mapi_uuid
               (fun f _ =>
                  ubind (uuidv4 uuidv4_nth) (fun frameId =>
                  uret {| frame_id := frameId;
                          photoId := result_photoId f;
                          geometry := geometry (frameData f) |}))
               0 frames) (fun newFrames =>
      let newSpread :=
        {| spread_id := fresh;
           albumId := album_id album;
           orderIndex := Z.of_nat (length (st_spreads st));
           spread_frames := newFrames |} in
      uret (Storage.saveSpread db newSpread,
            {| st_album := st_album st;
               st_spreads := st_spreads st ++ [ newSpread ];
               st_photos := st_photos st;
               st_currentSpreadIndex := length (st_spreads st);
               st_selectedPhotoIds := [];
               st_selectedFrameId := st_selectedFrameId st |})))
  end.

(** The photos the editor hands to the auto-layout dialog. *)
Definition selectedPhotos (st : EditorState) : list Photo :=
  filter (fun p => photo_id p ∈ st_selectedPhotoIds st) (st_photos st).

End Editor.

(** Every spread of the editor has its position as [orderIndex]. *)
Definition ordered_by_position (spreads : list Spread) : Prop :=
  forall (i : nat) (s : Spread), spreads !! i = Some s -> orderIndex s = Z.of_nat i.

(** ** More vocabulary *)

Local Open Scope Q_scope.

(** A rectangle keeps the margin from every edge of the canvas. *)
Definition inset (w h m : Q) (r : FrameGeometry) : Prop :=
  m <= x r /\ x r + width r <= w - m /\ m <= y r /\ y r + height r <= h - m.

Local Close Scope Q_scope.

(** The photo ids placed by a list of spreads, in order. *)
Definition placed_photoIds (spreads : list SpreadFrames) : list string :=
  spreads ≫= (fun s => photoId <$> frames s).

(** The frame ids of a list of spreads, in order. *)
Definition placed_frameIds (spreads : list SpreadFrames) : list string :=
  spreads ≫= (fun s => frame_id <$> frames s).

Local Open Scope Q_scope.

(** ** The clipping region of the 2D context *)








(** ** Worked data *)

Definition sample_album : Album :=
  mkAlbum "album" "Wedding" (mkAlbumSize "12x18" "12x18" 18 12 true)
    300 (mkGutterSettings true (1 # 4)) [].

Definition sample_photo (id : string) : Photo :=
  mkPhoto id "album" (id +:+ ".jpg") 4000 3000.

Definition sample_spread (id : string) (order : Z) : Spread :=
  mkSpread id "album" order [].

Definition sample_frame (id photo : string) (left : Q) : PhotoFrame :=
  mkPhotoFrame id photo (rect left 0 100 100 0).

(** Photos [a] and [c] have a preview URL; every blob is found and
    decodes to a 4000 x 3000 image; every canvas encodes. *)
Definition sample_env : Collaborators :=
  mkCollaborators unit (<["a" := "blob:a"]> (<["c" := "blob:c"]> ∅))
    (fun _ => Resolved (Some tt)) (fun _ => Resolved (mkImage 4000 3000))
    (fun _ => None) (fun _ => Some tt).



Definition empty_db : Database unit := mkDatabase ∅ ∅ ∅ ∅.

Definition sample_state : EditorState :=
  mkEditorState (Some sample_album)
    [ sample_spread "s0" 0; sample_spread "s1" 1 ]
    [ sample_photo "a"; sample_photo "b"; sample_photo "c" ]
    1 [ "c"; "a" ] None.

Definition sample_photos : list Photo :=
  [ sample_photo "a"; sample_photo "b"; sample_photo "c" ].

(** A spread of three frames; photo [b] has no preview URL. *)
Definition sample_frames : list PhotoFrame :=
  [ sample_frame "f0" "a" 0; sample_frame "f1" "b" 200;
    sample_frame "f2" "c" 400 ].

Definition sample_spreads : list Spread :=
  [ mkSpread "s0" "album" 0 sample_frames; sample_spread "s1" 1 ].

Definition sample_db : Database unit :=
  Storage.savePhoto
    (Storage.saveSpread (Storage.saveSpread empty_db (sample_spread "s1" 1))
       (sample_spread "s0" 0))
    (sample_photo "a") tt.

Definition sample_geometry : FrameGeometry :=
  nth 2 (generateFrames four_grid 5400 3600 75 60) (rect 0 0 0 0 0).

Definition sample_results : list LayoutResult :=
  [ mkLayoutResult "a" (sample_frame "x" "a" 0);
    mkLayoutResult "c" (sample_frame "y" "c" 200) ].

(** * Properties *)

(** [lra] does not read a division by a constant: the inverse of a
    numeral is replaced by its value first. *)
Ltac inv_consts :=
  unfold Qdiv in *;
  repeat match goal with
  | |- context [Qinv (Qmake ?n ?d)] =>
      let v := eval vm_compute in (Qinv (Qmake n d)) in
      change (Qinv (Qmake n d)) with v in *
  | H : context [Qinv (Qmake ?n ?d)] |- _ =>
      let v := eval vm_compute in (Qinv (Qmake n d)) in
      change (Qinv (Qmake n d)) with v in *
  end.

Ltac qlra := inv_consts; lra.

(** Case analysis on the template of the catalogue. *)
Ltac each_template Ht :=
  unfold LAYOUT_TEMPLATES in Ht;
  repeat (apply elem_of_cons in Ht as [-> | Ht]);
  [ .. | by apply elem_of_nil in Ht ];
  cbn [generateFrames photoCount id
       single_full two_side_by_side three_one_two four_grid six_mosaic] in *;
  unfold SPACING in *.

(** ** The worked scenario of the specification *)

(** A 12 x 18 inch album at 300 dpi has a 5400 x 3600 canvas, and its
    quarter-inch gutter is 75 pixels wide; disabled, it is 0. *)
Example canvas_12x18_at_300dpi :
  getCanvasDimensions
    (mkAlbum "album" "Wedding" (mkAlbumSize "12x18" "12x18" 18 12 true)
       300 (mkGutterSettings true (1 # 4)) []) = (5400, 3600) /\
  getGutterPixels
    (mkAlbum "album" "Wedding" (mkAlbumSize "12x18" "12x18" 18 12 true)
       300 (mkGutterSettings true (1 # 4)) []) = 75 /\
  getGutterPixels
    (mkAlbum "album" "Wedding" (mkAlbumSize "12x18" "12x18" 18 12 true)
       300 (mkGutterSettings false (1 # 4)) []) = 0.
Proof. repeat split. Qed.

Example nearest_templates :
  (fun n => id <$> getLayoutForPhotoCount n) <$> [0; 1; 2; 3; 4; 5; 6; 7; 100]%Z
  = [ Some "single-full"; Some "single-full"; Some "two-side-by-side";
      Some "three-one-two"; Some "four-grid"; Some "four-grid";
      Some "six-mosaic"; Some "six-mosaic"; Some "six-mosaic" ].
Proof. reflexivity. Qed.

(** ** Template geometry *)

Lemma generateFrames_length (t : LayoutTemplate) (w h g m : Q) :
  t ∈ LAYOUT_TEMPLATES ->
  Z.of_nat (length (generateFrames t w h g m)) = photoCount t.
Proof. intros Ht. each_template Ht; reflexivity. Qed.

(** C1, as stated, fails: with a margin below half the canvas width the
    Two Side by Side template on a 100 x 100 canvas with margin 45 yields
    frames of width -5. *)
Lemma C1_counterexample :
  two_side_by_side ∈ LAYOUT_TEMPLATES /\ 0 <= 45 /\ 45 < 100 / 2 /\
  ~ Forall (fun r => 0 <= width r /\ 0 <= height r /\ in_canvas 100 100 r)
      (generateFrames two_side_by_side 100 100 0 45).
Proof.
  split; [ | split; [ | split ] ].
  - unfold LAYOUT_TEMPLATES. set_solver.
  - vm_compute. discriminate.
  - vm_compute. reflexivity.
  - intros H. apply Forall_cons in H as [[Hw _] _].
    vm_compute in Hw. apply Hw. reflexivity.
Qed.

(** The Four Grid template puts its last column five pixels nearer to
    the right edge than the margin: with no margin it leaves the canvas. *)
Lemma four_grid_right_edge (w h g m : Q) :
  forall r, generateFrames four_grid w h g m !! 3%nat = Some r ->
  x r + width r == w - m + SPACING / 4.
Proof.
  intros r [= <-]. cbn [x width rect]. unfold SPACING. field.
Qed.

(** C1 (amended): every template returns exactly [photoCount] rectangles;
    when the gutter and the margin are not negative (the margin at least
    a quarter of the spacing for Four Grid), each half of the canvas
    leaves twice the spacing beside the margin and the height leaves
    twice the spacing between the margins, every rectangle has
    non-negative width and height and lies within the canvas. *)
Theorem C1_frames_within_canvas (t : LayoutTemplate) (w h g m : Q) :
  t ∈ LAYOUT_TEMPLATES ->
  Z.of_nat (length (generateFrames t w h g m)) = photoCount t /\
  (0 <= g -> 0 <= m ->
   (id t = "four-grid" -> SPACING / 4 <= m) ->
   m + 2 * SPACING <= (w - g) / 2 ->
   2 * m + 2 * SPACING <= h ->
   Forall (fun r => 0 <= width r /\ 0 <= height r /\ in_canvas w h r)
     (generateFrames t w h g m)).
Proof.
  intros Ht.
  split; [ by apply generateFrames_length | ].
  intros Hg Hm H4 Hw Hh.
  each_template Ht.
  all: try specialize (H4 eq_refl).
  all: unfold in_canvas; repeat constructor; cbn [x y width height rect].
  all: qlra.
Qed.

Lemma C1_frames_within_canvas_witness :
  Z.of_nat (length (generateFrames four_grid 5400 3600 75 60)) = 4%Z /\
  Forall (fun r => 0 <= width r /\ 0 <= height r /\ in_canvas 5400 3600 r)
    (generateFrames four_grid 5400 3600 75 60).
Proof.
  assert (Hin : four_grid ∈ LAYOUT_TEMPLATES)
    by (unfold LAYOUT_TEMPLATES; set_solver).
  destruct (C1_frames_within_canvas four_grid 5400 3600 75 60 Hin)
    as [Hcount Hwithin].
  split; [ exact Hcount | ].
  apply Hwithin.
  - vm_compute. discriminate.
  - vm_compute. discriminate.
  - intros _. vm_compute. discriminate.
  - vm_compute. discriminate.
  - vm_compute. discriminate.
Defined.

(** C4: for every template of two photos or more, when the gutter and
    the margin are not negative and every generated rectangle has
    positive width and height, no two rectangles share a point and every
    rectangle lies wholly on one side of the gutter strip. *)
Theorem C4_frames_disjoint_and_clear_of_gutter
    (t : LayoutTemplate) (w h g m : Q) :
  t ∈ LAYOUT_TEMPLATES ->
  (2 <= photoCount t)%Z ->
  0 <= g -> 0 <= m ->
  Forall (fun r => 0 < width r /\ 0 < height r) (generateFrames t w h g m) ->
  (forall (i j : nat) (a b : FrameGeometry),
     i <> j ->
     generateFrames t w h g m !! i = Some a ->
     generateFrames t w h g m !! j = Some b ->
     ~ overlap a b) /\
  Forall (clear_of_gutter w g) (generateFrames t w h g m).
Proof.
  intros Ht Hc Hg Hm Hpos.
  each_template Ht; [ lia | .. ].
  all: repeat (apply Forall_cons in Hpos as [[? ?] Hpos]); clear Hpos.
  all: cbn [x y width height rect] in *.
  all: split.
  all: try (unfold clear_of_gutter; repeat constructor;
            cbn [x y width height rect]; qlra).
  all: intros i j a b Hij Ha Hb [px [py [Hca Hcb]]].
  all: unfold covers in *.
  all: do 7 (try destruct i as [ | i ]); try discriminate Ha.
  all: do 7 (try destruct j as [ | j ]); try discriminate Hb.
  all: try congruence.
  all: injection Ha as <-; injection Hb as <-.
  all: cbn [x y width height rect] in *.
  all: qlra.
Qed.

Lemma C4_frames_disjoint_and_clear_of_gutter_witness :
  (forall (i j : nat) (a b : FrameGeometry),
     i <> j ->
     generateFrames six_mosaic 5400 3600 75 60 !! i = Some a ->
     generateFrames six_mosaic 5400 3600 75 60 !! j = Some b ->
     ~ overlap a b) /\
  Forall (clear_of_gutter 5400 75) (generateFrames six_mosaic 5400 3600 75 60).
Proof.
  apply (C4_frames_disjoint_and_clear_of_gutter six_mosaic 5400 3600 75 60).
  - unfold LAYOUT_TEMPLATES. set_solver.
  - vm_compute. discriminate.
  - vm_compute. discriminate.
  - vm_compute. discriminate.
  - repeat constructor.
Defined.

(** ** Template selection *)

Local Close Scope Q_scope.

Section SortHead.
Context {A : Type} (key : A -> Z).

Lemma sort_insert_head (a : A) (l : list A) :
  sort_insert (fun a b => key a - key b)%Z a l !! 0%nat =
  match l !! 0%nat with
  | None => Some a
  | Some b => if (key a - key b <=? 0)%Z then Some a else Some b
  end.
Proof. destruct l as [ | b l ]; cbn; [ done | by destruct (_ <=? _)%Z ]. Qed.

Lemma sort_head_first_min (l : list A) (t : A) :
  sort (fun a b => key a - key b)%Z l !! 0%nat = Some t ->
  exists i : nat, l !! i = Some t /\
    forall (j : nat) (t' : A), l !! j = Some t' ->
      (key t <= key t')%Z /\ ((j < i)%nat -> key t < key t')%Z.
Proof.
  revert t. induction l as [ | a l IH ]; intros t; cbn [sort].
  - discriminate.
  - rewrite sort_insert_head.
    destruct (sort _ l !! 0%nat) as [ b | ] eqn:Hb.
    + destruct (IH b eq_refl) as (i & Hi & Hmin).
      destruct (Z.leb_spec (key a - key b) 0) as [Hle | Hgt]; intros [= <-].
      * exists 0%nat. split; [ done | ].
        intros [ | j ] t' Ht'; cbn in Ht'.
        -- injection Ht' as <-. lia.
        -- destruct (Hmin j t' Ht'). lia.
      * exists (S i). split; [ done | ].
        intros [ | j ] t' Ht'; cbn in Ht'.
        -- injection Ht' as <-. lia.
        -- destruct (Hmin j t' Ht'). lia.
    + intros [= <-]. exists 0%nat. split; [ done | ].
      destruct l as [ | a' l ].
      * intros [ | j ] t' Ht'; cbn in Ht'; [ injection Ht' as <-; lia | done ].
      * cbn [sort] in Hb. rewrite sort_insert_head in Hb.
        destruct (sort _ l !! 0%nat); [ destruct (_ <=? _)%Z | ]; discriminate.
Qed.

Lemma sort_head_is_Some (a : A) (l : list A) :
  is_Some (sort (fun a b => key a - key b)%Z (a :: l) !! 0%nat).
Proof.
  cbn [sort]. rewrite sort_insert_head.
  destruct (sort _ l !! 0%nat); [ destruct (_ <=? _)%Z | ]; eauto.
Qed.
End SortHead.

Lemma find_first {A} (f : A -> bool) (l : list A) (t : A) :
  List.find f l = Some t ->
  exists i : nat, l !! i = Some t /\ f t = true /\
    forall (j : nat) (t' : A), (j < i)%nat -> l !! j = Some t' -> f t' = false.
Proof.
  induction l as [ | a l IH ]; cbn; [ discriminate | ].
  destruct (f a) eqn:Hfa.
  - intros [= <-]. exists 0%nat. repeat split; [ done | ]. intros; lia.
  - intros Hfind. destruct (IH Hfind) as (i & Hi & Hft & Hbefore).
    exists (S i). repeat split; [ done .. | ].
    intros [ | j ] t' Hj Ht'; cbn in Ht'.
    + by injection Ht' as <-.
    + apply (Hbefore j); [ lia | done ].
Qed.

Lemma getLayoutForPhotoCount_nearest (count : Z) :
  exists (i : nat) (t : LayoutTemplate),
    getLayoutForPhotoCount count = Some t /\
    first_nearest count LAYOUT_TEMPLATES i t.
Proof.
  unfold getLayoutForPhotoCount.
  destruct (List.find _ LAYOUT_TEMPLATES) as [ exact | ] eqn:Hfind.
  - destruct (find_first _ _ _ Hfind) as (i & Hi & Heq & Hbefore).
    apply Z.eqb_eq in Heq.
    exists i, exact. split; [ done | split; [ done | ] ].
    intros j t' Ht'. unfold distance. split; [ lia | ].
    intros Hj. specialize (Hbefore j t' ltac:(lia) Ht').
    apply Z.eqb_neq in Hbefore. lia.
  - destruct (sort_head_is_Some (fun t => Z.abs (photoCount t - count))
                single_full (tail LAYOUT_TEMPLATES)) as [t Ht].
    change (single_full :: tail LAYOUT_TEMPLATES) with LAYOUT_TEMPLATES in Ht.
    destruct (sort_head_first_min _ _ _ Ht) as (i & Hi & Hmin).
    exists i, t. split; [ exact Ht | split; [ done | ] ].
    intros j t' Ht'. apply (Hmin j t' Ht').
Qed.

(** C3: the catalogue has the photo counts 1, 2, 3, 4 and 6;
    [getLayoutForPhotoCount n] returns a template of the catalogue that
    is nearest to [n], every template before it in the catalogue being
    strictly farther (ties go to the first defined); it has exactly [n]
    photos when some template has; and for 5 it is Four Grid. *)
Theorem C3_getLayoutForPhotoCount_nearest (n : Z) :
  photoCount <$> LAYOUT_TEMPLATES = [1; 2; 3; 4; 6]%Z /\
  (exists (i : nat) (t : LayoutTemplate),
     getLayoutForPhotoCount n = Some t /\
     first_nearest n LAYOUT_TEMPLATES i t /\
     ((exists t', t' ∈ LAYOUT_TEMPLATES /\ photoCount t' = n) ->
      photoCount t = n)) /\
  getLayoutForPhotoCount 5 = Some four_grid.
Proof.
  split; [ reflexivity | split; [ | reflexivity ] ].
  destruct (getLayoutForPhotoCount_nearest n) as (i & t & Hget & Hnear).
  exists i, t. split; [ done | split; [ done | ] ].
  intros (t' & Hin & Hcount).
  apply list_elem_of_lookup in Hin as [j Hj].
  destruct Hnear as [_ Hmin]. destruct (Hmin j t' Hj) as [Hle _].
  unfold distance in Hle. lia.
Qed.

Lemma getLayoutForPhotoCount_small (n : Z) :
  (n <= 1)%Z -> getLayoutForPhotoCount n = Some single_full.
Proof.
  intros Hn.
  destruct (getLayoutForPhotoCount_nearest n) as (i & t & -> & Hi & Hmin).
  destruct (Hmin 0%nat single_full eq_refl) as [_ Hfirst].
  unfold distance in Hfirst.
  do 5 (destruct i as [ | i ]; [ injection Hi as <-; cbn in Hfirst; try done; lia | ]).
  discriminate Hi.
Qed.

Lemma autoGenerateSpreads_loop_no_TypeError (uuid : nat -> string)
    (fuel : nat) (photos : list Photo) (p : nat) (w h g m : Q) :
  forall (i : nat) (spreads : list SpreadFrames) (k : nat),
    autoGenerateSpreads_loop uuid fuel photos p w h g m i spreads k <> TypeError.
Proof.
  induction fuel as [ | fuel IH ]; intros i spreads k; cbn [autoGenerateSpreads_loop]; [ congruence | ].
  destruct (i <? length photos)%nat; [ | congruence ].
  destruct (getLayoutForPhotoCount_nearest
              (Z.of_nat (length (slice i (i + p) photos))))
    as (j & t & -> & _).
  destruct (generateFramesForLayout _ _ _ _ _ _ _ _). apply IH.
Qed.

(** C10: [getLayoutForPhotoCount] returns a template of the catalogue
    for every integer, zero and the negative ones included; for every
    [n <= 1] it is Single Full Bleed, of photo count 1; and
    [autoGenerateSpreads] never meets a missing template. *)
Theorem C10_getLayoutForPhotoCount_total :
  (forall n : Z, exists t : LayoutTemplate,
      getLayoutForPhotoCount n = Some t /\ t ∈ LAYOUT_TEMPLATES) /\
  (forall n : Z, (n <= 1)%Z ->
      getLayoutForPhotoCount n = Some single_full /\ photoCount single_full = 1%Z) /\
  (forall (uuid : nat -> string) (fuel : nat) (photos : list Photo)
          (p : nat) (album : Album) (k : nat),
      autoGenerateSpreads uuid fuel photos p album k <> TypeError).
Proof.
  split; [ | split ].
  - intros n.
    destruct (getLayoutForPhotoCount_nearest n) as (i & t & Hget & Hi & _).
    exists t. split; [ done | ]. by apply list_elem_of_lookup_2 in Hi.
  - intros n Hn. split; [ by apply getLayoutForPhotoCount_small | reflexivity ].
  - intros uuid fuel photos p album k. unfold autoGenerateSpreads.
    destruct (getCanvasDimensions album).
    apply autoGenerateSpreads_loop_no_TypeError.
Qed.

Lemma C10_getLayoutForPhotoCount_total_witness :
  getLayoutForPhotoCount (-3) = Some single_full /\
  photoCount single_full = 1%Z.
Proof.
  apply (proj1 (proj2 C10_getLayoutForPhotoCount_total) (-3)%Z). lia.
Defined.

Section Frames.
Variable uuid : nat -> string.

Lemma mapi_uuid_frames (photos : list Photo) (l : list FrameGeometry) :
  forall k n : nat,
    mapi_uuid
      (fun frame index =>
         ubind (uuidv4 uuid) (fun fresh =>
         uret {| frame_id := fresh;
                 photoId := or_empty (photo_id <$> photos !! index);
                 geometry := frame |}))
      k l n
    = (imap (fun i frame =>
               {| frame_id := uuid (n + i);
                  photoId := or_empty (photo_id <$> photos !! (k + i));
                  geometry := frame |}) l,
       n + length l).
Proof.
  induction l as [ | a l IH ]; intros k n.
  - cbn. unfold uret. by rewrite Nat.add_0_r.
  - cbn [mapi_uuid imap length]. unfold ubind at 1. unfold uuidv4 at 1.
    unfold ubind at 1, uret at 1. unfold ubind at 1. rewrite IH. unfold uret.
    rewrite !Nat.add_0_r. f_equal; [ | lia ].
    f_equal. apply imap_ext. intros i g _. cbn.
    by rewrite !Nat.add_succ_r.
Qed.

Lemma generateFramesForLayout_imap (t : LayoutTemplate) (photos : list Photo)
    (w h g m : Q) (n : nat) :
  (generateFramesForLayout uuid t photos w h g m n).1 =
  imap (fun i frame =>
          {| frame_id := uuid (n + i);
             photoId := or_empty (photo_id <$> photos !! i);
             geometry := frame |})
       (take (length photos) (generateFrames t w h g m)).
Proof.
  unfold generateFramesForLayout, slice.
  rewrite mapi_uuid_frames, Nat.sub_0_r, drop_0. reflexivity.
Qed.

Lemma generateFramesForLayout_length (t : LayoutTemplate)
    (photos : list Photo) (w h g m : Q) (n : nat) :
  t ∈ LAYOUT_TEMPLATES ->
  Z.of_nat (length (generateFramesForLayout uuid t photos w h g m n).1) =
  Z.min (Z.of_nat (length photos)) (photoCount t).
Proof.
  intros Ht. rewrite generateFramesForLayout_imap, length_imap, length_take.
  rewrite <- (generateFrames_length t w h g m Ht). lia.
Qed.

Lemma or_empty_id (s : string) : or_empty (Some s) = s.
Proof.
  unfold or_empty. destruct (String.eqb_spec s EmptyString); congruence.
Qed.

(** C5: with fewer photos than the template has rectangles,
    [generateFramesForLayout] returns as many frames as photos; their
    geometries are the first rectangles of the template, the others being
    dropped; and the frame at an index carries the id of the photo at that
    index. *)
Theorem C5_generateFramesForLayout_truncates (t : LayoutTemplate)
    (photos : list Photo) (w h g m : Q) (n : nat) :
  t ∈ LAYOUT_TEMPLATES ->
  (Z.of_nat (length photos) < photoCount t)%Z ->
  length (generateFramesForLayout uuid t photos w h g m n).1 = length photos /\
  geometry <$> (generateFramesForLayout uuid t photos w h g m n).1 =
    take (length photos) (generateFrames t w h g m) /\
  forall (i : nat) (p : Photo), photos !! i = Some p ->
    exists f : PhotoFrame,
      (generateFramesForLayout uuid t photos w h g m n).1 !! i = Some f /\
      photoId f = photo_id p.
Proof.
  intros Ht Hlt.
  pose proof (generateFramesForLayout_length t photos w h g m n Ht) as Hlen.
  split; [ lia | ].
  rewrite generateFramesForLayout_imap in *. split.
  - rewrite fmap_imap. unfold compose. cbn.
    generalize (take (length photos) (generateFrames t w h g m)).
    intros l. induction l as [ | a l IH ] using rev_ind; [ done | ].
    rewrite imap_app. cbn. by rewrite IH.
  - intros i p Hp.
    assert (Hi : (i < length photos)%nat) by by eapply lookup_lt_Some.
    rewrite length_imap in Hlen.
    destruct (lookup_lt_is_Some_2
                (take (length photos) (generateFrames t w h g m)) i
                ltac:(lia)) as [r Hr].
    eexists. rewrite list_lookup_imap, Hr. cbn. split; [ reflexivity | ].
    cbn. rewrite Hp. cbn. apply or_empty_id.
Qed.
End Frames.

Lemma C5_generateFramesForLayout_truncates_witness :
  length (generateFramesForLayout (fun _ => "frame") four_grid
            [ mkPhoto "p1" "album" "p1.jpg" 4000 3000;
              mkPhoto "p2" "album" "p2.jpg" 3000 4000 ]
            5400 3600 75 60 0).1 = 2%nat.
Proof.
  apply (C5_generateFramesForLayout_truncates (fun _ => "frame") four_grid
           [ mkPhoto "p1" "album" "p1.jpg" 4000 3000;
             mkPhoto "p2" "album" "p2.jpg" 3000 4000 ]
           5400 3600 75 60 0).
  - unfold LAYOUT_TEMPLATES. set_solver.
  - reflexivity.
Defined.

Lemma div_up_0 (p : nat) : (0 < p)%nat -> div_up 0 p = 0%nat.
Proof. intros Hp. unfold div_up. apply Nat.div_small. lia. Qed.

Lemma div_up_step (a p : nat) :
  (0 < p)%nat -> (0 < a)%nat -> div_up a p = S (div_up (a - p) p).
Proof.
  intros Hp Ha. unfold div_up.
  destruct (Nat.le_gt_cases p a) as [Hle | Hgt].
  - replace (a + p - 1)%nat with ((a - p + p - 1) + 1 * p)%nat by lia.
    rewrite Nat.div_add by lia. lia.
  - replace (a - p)%nat with 0%nat by lia.
    replace (a + p - 1)%nat with ((a - 1) + 1 * p)%nat by lia.
    rewrite Nat.div_add by lia.
    rewrite !Nat.div_small by lia. reflexivity.
Qed.

Lemma slice_min {A} (l : list A) (a b : nat) :
  slice a (Nat.min b (length l)) l = slice a b l.
Proof.
  unfold slice.
  destruct (Nat.le_gt_cases b (length l)) as [Hle | Hgt].
  - by rewrite Nat.min_l.
  - rewrite Nat.min_r by lia.
    rewrite !take_ge; [ done | rewrite length_drop; lia .. ].
Qed.

Section Spreads.
Variable uuid : nat -> string.

Lemma autoGenerateSpreads_loop_spec (photos : list Photo) (p : nat)
    (w h g m : Q) :
  (0 < p)%nat ->
  forall (fuel i : nat) (acc : list SpreadFrames) (n : nat),
    (length photos - i < fuel)%nat ->
    exists rest : list SpreadFrames,
      autoGenerateSpreads_loop uuid fuel photos p w h g m i acc n
        = Returned (acc ++ rest) /\
      length rest = div_up (length photos - i) p /\
      forall k : nat, (k < length rest)%nat ->
        exists (template : LayoutTemplate) (s : SpreadFrames) (n_k : nat),
          rest !! k = Some s /\
          getLayoutForPhotoCount
            (Z.of_nat (length (slice (i + k * p) (i + k * p + p) photos)))
            = Some template /\
          frames s =
            (generateFramesForLayout uuid template
               (slice (i + k * p) (i + k * p + p) photos) w h g m n_k).1.
Proof.
  intros Hp. induction fuel as [ | fuel IH ]; intros i acc n Hfuel; [ lia | ].
  cbn [autoGenerateSpreads_loop].
  destruct (Nat.ltb_spec i (length photos)) as [Hi | Hi].
  - destruct (getLayoutForPhotoCount_nearest
                (Z.of_nat (length (slice i (i + p) photos))))
      as (j & t & Hget & _).
    rewrite Hget.
    destruct (generateFramesForLayout uuid t (slice i (i + p) photos) w h g m n)
      as [fs n'] eqn:Hfs.
    destruct (IH (i + p)%nat (acc ++ [ {| frames := fs |} ]) n' ltac:(lia))
      as (rest & Hrun & Hlen & Hrest).
    exists ({| frames := fs |} :: rest). split; [ | split ].
    + rewrite Hrun, <- app_assoc. reflexivity.
    + cbn [length]. rewrite Hlen.
      rewrite (div_up_step (length photos - i) p Hp ltac:(lia)).
      do 2 f_equal. lia.
    + intros [ | k ] Hk.
      * exists t, {| frames := fs |}, n.
        cbn [Nat.mul]. rewrite !Nat.add_0_r.
        split; [ done | split; [ done | ] ]. cbn. by rewrite Hfs.
      * cbn [length] in Hk.
        destruct (Hrest k ltac:(lia)) as (t' & s & n_k & Hs & Hget' & Hframes).
        exists t', s, n_k.
        replace (i + S k * p)%nat with (i + p + k * p)%nat by lia.
        split; [ done | split; done ].
  - exists []. rewrite app_nil_r. split; [ done | split; [ | cbn; lia ] ].
    replace (length photos - i)%nat with 0%nat by lia.
    by rewrite div_up_0.
Qed.



(** With [photosPerSpread = 0] the loop index never moves: the loop runs
    for as long as it is given fuel. *)
Lemma autoGenerateSpreads_loop_zero (photos : list Photo) (w h g m : Q) :
  photos <> [] ->
  forall (fuel : nat) (acc : list SpreadFrames) (n : nat),
    autoGenerateSpreads_loop uuid fuel photos 0 w h g m 0 acc n = OutOfFuel.
Proof.
  intros Hne. induction fuel as [ | fuel IH ]; intros acc n; [ done | ].
  cbn [autoGenerateSpreads_loop].
  destruct photos as [ | p photos' ]; [ done | ]. cbn [length Nat.ltb Nat.leb].
  destruct (getLayoutForPhotoCount_nearest
              (Z.of_nat (length (slice 0 (0 + 0) (p :: photos')))))
    as (j & t & -> & _).
  destruct (generateFramesForLayout _ _ _ _ _ _ _ _). apply IH.
Qed.

End Spreads.


Local Open Scope Q_scope.

(** ** Unit conversion and cover fit *)

Lemma Math_round_near (v : Q) :
  v - (1 # 2) < Math_round v /\ Math_round v <= v + (1 # 2).
Proof.
  unfold Math_round.
  pose proof (Qfloor_le (v + (1 # 2))) as Hle.
  pose proof (Qlt_floor (v + (1 # 2))) as Hlt.
  rewrite inject_Z_plus in Hlt. change (inject_Z 1) with 1 in Hlt.
  split; lra.
Qed.

Lemma round_trip_half (i d : Q) :
  0 < d ->
  Qabs (pixelsToInches (inchesToPixels i d) d - i) <= (1 # 2) / d.
Proof.
  intros Hd. unfold pixelsToInches, inchesToPixels.
  destruct (Math_round_near (i * d)) as [Hlo Hhi].
  set (p := Math_round (i * d)) in *.
  assert (Hz : 0 < / d) by by apply Qinv_lt_0_compat.
  assert (Hdz : d * / d == 1) by (apply Qmult_inv_r; lra).
  unfold Qdiv. set (z := / d) in *.
  assert (E : p * z - i == (p - i * d) * z).
  { transitivity (p * z - i * (d * z)); [ rewrite Hdz; ring | ring ]. }
  assert (Hup : (p - i * d) * z <= (1 # 2) * z).
  { apply Qmult_le_compat_r; lra. }
  assert (Hdown : - (1 # 2) * z <= (p - i * d) * z).
  { apply Qmult_le_compat_r; lra. }
  apply Qabs_Qle_condition. rewrite E. split; lra.
Qed.

(** C7: for a dpi [d > 0] and [i >= 0] inches, converting to pixels
    ([round (i * d)]) and back ([p / d], not rounded) differs from [i] by
    at most [1 / d]. *)
Theorem C7_round_trip_within_one_pixel (i d : Q) :
  0 < d -> 0 <= i ->
  inchesToPixels i d = Math_round (i * d) /\
  (forall p : Q, pixelsToInches p d = p / d) /\
  Qabs (pixelsToInches (inchesToPixels i d) d - i) <= 1 / d.
Proof.
  intros Hd _. split; [ reflexivity | split; [ reflexivity | ] ].
  eapply Qle_trans; [ by apply round_trip_half | ].
  assert (Hz : 0 < / d) by by apply Qinv_lt_0_compat.
  unfold Qdiv. lra.
Qed.

Lemma C7_round_trip_within_one_pixel_witness :
  Qabs (pixelsToInches (inchesToPixels (1 # 3) 72) 72 - (1 # 3)) <= 1 / 72.
Proof.
  apply (C7_round_trip_within_one_pixel (1 # 3) 72).
  - reflexivity.
  - vm_compute. discriminate.
Defined.

Lemma coverFit_wider (frame : FrameGeometry) (img : Image) :
  Qgtb (img_width img / img_height img) (width frame / height frame) = true ->
  coverFit frame img =
  {| scale := height frame / img_height img;
     offsetX := (width frame - img_width img * (height frame / img_height img)) / 2;
     offsetY := 0 |}.
Proof. unfold coverFit. by intros ->. Qed.

Lemma Qgtb_lt (a b : Q) : Qgtb a b = true <-> b < a.
Proof.
  unfold Qgtb. rewrite negb_true_iff, <- not_true_iff_false, Qle_bool_iff.
  split; [ apply Qnot_le_lt | apply Qlt_not_le ].
Qed.

(** C2, as stated, fails: a 200 x 100 image is wider in aspect than a
    100 x 100 frame, and its centring offset is -50, not positive. *)
Lemma C2_counterexample :
  width (rect 0 0 100 100 0) / height (rect 0 0 100 100 0)
    < img_width (mkImage 200 100) / img_height (mkImage 200 100) /\
  ~ 0 < offsetX (coverFit (rect 0 0 100 100 0) (mkImage 200 100)).
Proof.
  split; [ reflexivity | ].
  vm_compute. discriminate.
Qed.

(** C2 (amended): for an image and a frame of positive dimensions, when
    the aspect ratio of the image is strictly greater than that of the
    frame, the scale is [frameHeight / imageHeight], [offsetY] is 0 and
    [offsetX = (frameWidth - imageWidth * scale) / 2] is strictly
    negative; otherwise the scale is [frameWidth / imageWidth], [offsetX]
    is 0 and [offsetY = (frameHeight - imageHeight * scale) / 2] is not
    positive. *)
Theorem C2_cover_fit (frame : FrameGeometry) (img : Image) :
  0 < img_width img -> 0 < img_height img ->
  0 < width frame -> 0 < height frame ->
  (width frame / height frame < img_width img / img_height img ->
     scale (coverFit frame img) == height frame / img_height img /\
     offsetY (coverFit frame img) == 0 /\
     offsetX (coverFit frame img) ==
       (width frame - img_width img * scale (coverFit frame img)) / 2 /\
     offsetX (coverFit frame img) < 0) /\
  (~ width frame / height frame < img_width img / img_height img ->
     scale (coverFit frame img) == width frame / img_width img /\
     offsetX (coverFit frame img) == 0 /\
     offsetY (coverFit frame img) ==
       (height frame - img_height img * scale (coverFit frame img)) / 2 /\
     offsetY (coverFit frame img) <= 0).
Proof.
  intros Hiw Hih Hfw Hfh. unfold coverFit.
  destruct (Qgtb _ _) eqn:Hcmp; split; intros Hlt.
  - cbn [scale offsetX offsetY]. repeat split; try reflexivity.
    revert Hlt. unfold Qdiv.
    assert (Ha : 0 < / img_height img) by by apply Qinv_lt_0_compat.
    assert (Hb : 0 < / height frame) by by apply Qinv_lt_0_compat.
    assert (Hbb : height frame * / height frame == 1) by (apply Qmult_inv_r; lra).
    set (a := / img_height img) in *. set (b := / height frame) in *.
    intros Hlt.
    assert (width frame * b * height frame < img_width img * a * height frame)
      by (apply Qmult_lt_compat_r; assumption).
    change (/ 2) with (1 # 2).
    nra.
  - apply Qgtb_lt in Hcmp. contradiction.
  - apply not_true_iff_false in Hcmp. rewrite Qgtb_lt in Hcmp. contradiction.
  - cbn [scale offsetX offsetY]. repeat split; try reflexivity.
    apply Qnot_lt_le in Hlt. revert Hlt. unfold Qdiv.
    assert (Ha : 0 < / img_width img) by by apply Qinv_lt_0_compat.
    assert (Hb : 0 < / height frame) by by apply Qinv_lt_0_compat.
    assert (Hc : 0 < / img_height img) by by apply Qinv_lt_0_compat.
    assert (Hbb : height frame * / height frame == 1) by (apply Qmult_inv_r; lra).
    assert (Haa : img_width img * / img_width img == 1) by (apply Qmult_inv_r; lra).
    assert (Hcc : img_height img * / img_height img == 1) by (apply Qmult_inv_r; lra).
    set (a := / img_width img) in *. set (b := / height frame) in *.
    set (c := / img_height img) in *.
    intros Hle. change (/ 2) with (1 # 2).
    (* iw*c <= fw*b ; goal fh - ih * (fw * a) <= 0 *)
    assert (H1 : img_width img * c * (height frame * img_height img * a)
                 <= width frame * b * (height frame * img_height img * a)).
    { apply Qmult_le_compat_r; [ assumption | ].
      apply Qlt_le_weak. repeat apply Qmult_lt_0_compat; assumption. }
    assert (E1 : img_width img * c * (height frame * img_height img * a)
                 == height frame).
    { transitivity ((img_width img * a) * (img_height img * c) * height frame);
        [ ring | rewrite Haa, Hcc; ring ]. }
    assert (E2 : width frame * b * (height frame * img_height img * a)
                 == img_height img * (width frame * a)).
    { transitivity ((height frame * b) * (img_height img * (width frame * a)));
        [ ring | rewrite Hbb; ring ]. }
    rewrite E1, E2 in H1. lra.
Qed.

Lemma C2_cover_fit_witness :
  scale (coverFit (rect 0 0 100 100 0) (mkImage 200 100)) == 100 / 100 /\
  offsetY (coverFit (rect 0 0 100 100 0) (mkImage 200 100)) == 0 /\
  offsetX (coverFit (rect 0 0 100 100 0) (mkImage 200 100)) ==
    (100 - 200 * scale (coverFit (rect 0 0 100 100 0) (mkImage 200 100))) / 2 /\
  offsetX (coverFit (rect 0 0 100 100 0) (mkImage 200 100)) < 0.
Proof.
  apply (C2_cover_fit (rect 0 0 100 100 0) (mkImage 200 100));
    reflexivity.
Defined.

(** ** Export compositor *)

Section ExportProperties.
Variable env : Collaborators.

Ltac run_frame :=
  unfold drawFrame, drawFrame_try, due_drawImage, resolveImage, try_catch,
    await, when, bind, emit, continue, throw, ret;
  repeat match goal with
  | |- context [match ?c with _ => _ end] =>
      lazymatch c with
      | context [match _ with _ => _ end] => fail
      | _ => destruct c eqn:?
      end
  end.

Lemma drawFrame_no_throw (frame : PhotoFrame) :
  (drawFrame env frame).2 = Normal tt \/ (drawFrame env frame).2 = Continue.
Proof.
  unfold drawFrame.
  destruct (photoUrls env !! photoId frame) as [ url | ]; [ | by right ].
  destruct (String.eqb url EmptyString); [ by right | ].
  unfold try_catch, emit.
  destruct (drawFrame_try env frame) as [es [ [] | | e ]]; cbn; auto.
Qed.

Lemma drawFrame_events (frame : PhotoFrame) :
  Forall frame_event (drawFrame env frame).1.
Proof. run_frame; cbn; repeat constructor. Qed.

Lemma drawFrame_drawn (frame : PhotoFrame) :
  drawn_images (drawFrame env frame).1 = option_list (due_drawImage env frame).
Proof. run_frame; simplify_eq; reflexivity. Qed.

Lemma for_of_no_throw {A} (body : A -> Eff unit) (l : list A) :
  (forall a, (body a).2 = Normal tt \/ (body a).2 = Continue) ->
  for_of l body = (concat ((fun a => (body a).1) <$> l), Normal tt).
Proof.
  intros Hbody. induction l as [ | a l IH ]; [ done | ].
  cbn [for_of fmap list_fmap concat]. rewrite IH.
  destruct (body a) as [es c] eqn:Ha. specialize (Hbody a). rewrite Ha in Hbody.
  cbn in Hbody. destruct Hbody as [-> | ->]; reflexivity.
Qed.

Lemma drawFrames_run (frames : list PhotoFrame) :
  drawFrames env frames
  = (concat ((fun f => (drawFrame env f).1) <$> frames), Normal tt).
Proof. apply for_of_no_throw, drawFrame_no_throw. Qed.

Lemma drawFrames_drawn (frames : list PhotoFrame) :
  drawn_images (drawFrames env frames).1 = omap (due_drawImage env) frames.
Proof.
  rewrite drawFrames_run. cbn [fst]. unfold drawn_images.
  induction frames as [ | f frames IH ]; [ done | ].
  cbn [fmap list_fmap concat omap list_omap]. rewrite omap_app, IH.
  fold (drawn_images (drawFrame env f).1). rewrite drawFrame_drawn.
  by destruct (due_drawImage env f).
Qed.

Lemma progress_values_frame_events (es : list Event) :
  Forall frame_event es -> progress_values es = [].
Proof.
  induction 1 as [ | e es He _ IH ]; [ done | ].
  destruct e; try done; exact IH.
Qed.

Lemma drawFrames_progress (frames : list PhotoFrame) :
  progress_values (drawFrames env frames).1 = [].
Proof.
  apply progress_values_frame_events. rewrite drawFrames_run. cbn [fst].
  induction frames as [ | f frames IH ]; [ constructor | ].
  cbn. apply Forall_app. split; [ apply drawFrame_events | exact IH ].
Qed.

Lemma exportSpread_run (album : Album) (scope : ExportScope)
    (format : ExportFormat) (cur total i : nat) (spread : Spread) :
  (exportSpread env album scope format cur total i (Some spread)).2
    = Normal tt /\
  progress_values
    (exportSpread env album scope format cur total i (Some spread)).1
    = progress_around total i /\
  drawn_images
    (exportSpread env album scope format cur total i (Some spread)).1
    = omap (due_drawImage env) (spread_frames spread) /\
  last (exportSpread env album scope format cur total i (Some spread)).1
    = Some (SetProgress (inject_Z (Z.of_nat (i + 1))
                         / inject_Z (Z.of_nat total) * 100)).
Proof.
  pose proof (drawFrames_progress (spread_frames spread)) as Hprog.
  pose proof (drawFrames_drawn (spread_frames spread)) as Hdrawn.
  unfold exportSpread. destruct (getCanvasDimensions album) as [w h].
  rewrite drawFrames_run in *. cbn [fst] in Hprog, Hdrawn.
  unfold when, bind, emit, ret.
  destruct (bool_decide _); cbn [fst snd app].
  all: unfold progress_values, drawn_images in *.
  all: cbn [omap list_omap]; rewrite !omap_app, ?Hprog, ?Hdrawn; cbn.
  all: rewrite ?app_nil_r; repeat split; try done.
  all: repeat (rewrite last_cons || rewrite last_app); reflexivity.
Qed.

Lemma exportLoop_run (album : Album) (scope : ExportScope)
    (format : ExportFormat) (cur total : nat) (spreads : list Spread) :
  forall i : nat,
    (exportLoop env album scope format cur total i (Some <$> spreads)).2
      = Normal tt /\
    progress_values
      (exportLoop env album scope format cur total i (Some <$> spreads)).1
      = flat_map (progress_around total) (seq i (length spreads)) /\
    drawn_images
      (exportLoop env album scope format cur total i (Some <$> spreads)).1
      = flat_map (fun s => omap (due_drawImage env) (spread_frames s)) spreads.
Proof.
  induction spreads as [ | s spreads IH ]; intros i; [ done | ].
  cbn [fmap list_fmap exportLoop length seq flat_map].
  destruct (exportSpread_run album scope format cur total i s)
    as (Hc & Hp & Hd & _).
  destruct (exportSpread env album scope format cur total i (Some s)) as [es c].
  cbn [fst snd] in Hc, Hp, Hd. subst c.
  destruct (IH (S i)) as (Hc' & Hp' & Hd').
  fold (@fmap list _ _ _ Some spreads).
  unfold bind.
  destruct (exportLoop env album scope format cur total (S i) (Some <$> spreads))
    as [es' c'].
  cbn [fst snd] in *. subst c'. split; [ done | ].
  unfold progress_values, drawn_images in *.
  by rewrite !omap_app, Hp, Hp', Hd, Hd'.
Qed.

Lemma handleExport_all_progress (album : Album) (spreads : list Spread)
    (format : ExportFormat) (cur : nat) :
  progress_values (handleExport env album spreads all format cur)
  = 0 :: flat_map (progress_around (length spreads)) (seq 0 (length spreads)).
Proof.
  unfold handleExport. rewrite length_fmap.
  destruct (exportLoop_run album all format cur (length spreads) spreads 0%nat)
    as (Hc & Hp & _).
  destruct (exportLoop env album all format cur (length spreads) 0
              (Some <$> spreads)) as [es c].
  cbn [fst snd] in Hc, Hp. subst c.
  unfold try_catch, bind, emit. cbn [fst snd app].
  unfold progress_values in *. cbn [omap list_omap].
  rewrite !omap_app, Hp. cbn. by rewrite !app_nil_r.
Qed.

Lemma progress_around_sorted (total : nat) :
  forall (m i : nat),
    Sorted Qle (flat_map (progress_around total) (seq i m)).
Proof.
  assert (Hz : 0 <= / inject_Z (Z.of_nat total)).
  { apply Qinv_le_0_compat. change 0 with (inject_Z 0).
    rewrite <- Zle_Qle. lia. }
  induction m as [ | m IH ]; intros i; [ constructor | ].
  cbn [seq flat_map progress_around app].
  assert (Hstep : inject_Z (Z.of_nat i) <= inject_Z (Z.of_nat (i + 1))).
  { rewrite <- Zle_Qle. lia. }
  repeat constructor.
  - apply IH.
  - destruct m as [ | m ]; [ constructor | ].
    cbn [seq flat_map progress_around app]. constructor.
    rewrite Nat.add_1_r. apply Qle_refl.
  - unfold Qdiv. set (z := / inject_Z (Z.of_nat total)) in *.
    apply Qmult_le_compat_r; [ | done ].
    apply Qmult_le_compat_r; done.
Qed.

Lemma progress_around_bounds (total i : nat) :
  (i < total)%nat ->
  Forall (fun p => 0 <= p /\ p <= 100) (progress_around total i).
Proof.
  intros Hi.
  assert (Hn : 0 < inject_Z (Z.of_nat total)).
  { change 0 with (inject_Z 0). rewrite <- Zlt_Qlt. lia. }
  assert (Hz : 0 < / inject_Z (Z.of_nat total)) by by apply Qinv_lt_0_compat.
  assert (Hnz : inject_Z (Z.of_nat total) * / inject_Z (Z.of_nat total) == 1)
    by (apply Qmult_inv_r; lra).
  assert (H0 : 0 <= inject_Z (Z.of_nat i)).
  { change 0 with (inject_Z 0). rewrite <- Zle_Qle. lia. }
  assert (H1 : inject_Z (Z.of_nat i) <= inject_Z (Z.of_nat (i + 1))).
  { rewrite <- Zle_Qle. lia. }
  assert (H2 : inject_Z (Z.of_nat (i + 1)) <= inject_Z (Z.of_nat total)).
  { rewrite <- Zle_Qle. lia. }
  unfold progress_around, Qdiv.
  set (n := inject_Z (Z.of_nat total)) in *. set (z := / n) in *.
  set (a := inject_Z (Z.of_nat i)) in *.
  set (b := inject_Z (Z.of_nat (i + 1))) in *.
  assert (Haz : 0 <= a * z) by (apply Qmult_le_0_compat; lra).
  assert (Hbz : 0 <= b * z) by (apply Qmult_le_0_compat; lra).
  assert (Hab : a * z <= n * z) by (apply Qmult_le_compat_r; lra).
  assert (Hbb : b * z <= n * z) by (apply Qmult_le_compat_r; lra).
  repeat constructor; lra.
Qed.

Lemma progress_after (total i : nat) :
  (0 < total)%nat ->
  inject_Z (Z.of_nat (i + 1)) / inject_Z (Z.of_nat total) * 100
  == 100 * inject_Z (Z.of_nat (i + 1)) / inject_Z (Z.of_nat total).
Proof.
  intros Hn. field. change 0 with (inject_Z 0). rewrite inject_Z_injective. lia.
Qed.

Lemma progress_lookup (total : nat) :
  forall (m start i : nat), (i < m)%nat ->
    flat_map (progress_around total) (seq start m) !! (2 * i + 1)%nat
    = Some (inject_Z (Z.of_nat (start + i + 1))
            / inject_Z (Z.of_nat total) * 100).
Proof.
  induction m as [ | m IH ]; intros start i Hi; [ lia | ].
  cbn [seq flat_map progress_around app].
  destruct i as [ | i ].
  - cbn. by rewrite Nat.add_0_r.
  - replace (2 * S i + 1)%nat with (S (S (2 * i + 1))) by lia.
    transitivity (flat_map (progress_around total) (seq (S start) m)
                    !! (2 * i + 1)%nat); [ reflexivity | ].
    rewrite (IH (S start) i) by lia.
    do 4 f_equal. lia.
Qed.

Lemma progress_bounds_all (total : nat) :
  Forall (fun p => 0 <= p /\ p <= 100)
    (flat_map (progress_around total) (seq 0 total)).
Proof.
  apply Forall_flat_map, Forall_forall. intros i Hi.
  apply progress_around_bounds. apply elem_of_seq in Hi. lia.
Qed.

(** C8: exporting all [n >= 1] spreads reports percentages that never
    decrease and stay within 0 and 100; the report that ends the spread at
    position [i] is [100 * (i + 1) / n]; the last report is 100; for three
    spreads the reports round to 0, 33.3, 66.7 and 100. *)
Theorem C8_export_progress (album : Album) (spreads : list Spread)
    (format : ExportFormat) (cur : nat) :
  spreads <> [] ->
  Sorted Qle (progress_values (handleExport env album spreads all format cur)) /\
  Forall (fun p => 0 <= p /\ p <= 100)
    (progress_values (handleExport env album spreads all format cur)) /\
  (forall (i : nat) (spread : Spread), spreads !! i = Some spread ->
     exists p : Q,
       last (exportSpread env album all format cur (length spreads) i
               (Some spread)).1 = Some (SetProgress p) /\
       progress_values (handleExport env album spreads all format cur)
         !! (2 * i + 2)%nat = Some p /\
       p == 100 * inject_Z (Z.of_nat (i + 1))
            / inject_Z (Z.of_nat (length spreads))) /\
  (exists p : Q,
     last (progress_values (handleExport env album spreads all format cur))
       = Some p /\ p == 100) /\
  (length spreads = 3%nat ->
   Forall2 (fun p v => round1 p == v)
     (progress_values (handleExport env album spreads all format cur))
     [ 0; 0; 333 # 10; 333 # 10; 667 # 10; 667 # 10; 100 ]).
Proof.
  intros Hne. rewrite handleExport_all_progress.
  assert (Hn : (0 < length spreads)%nat) by (destruct spreads; [ done | cbn; lia ]).
  split; [ | split; [ | split; [ | split ] ] ].
  - constructor; [ apply progress_around_sorted | ].
    destruct (length spreads); [ lia | ]. constructor.
    cbn. vm_compute. discriminate.
  - constructor; [ lra | apply progress_bounds_all ].
  - intros i spread Hi.
    assert (Hlt : (i < length spreads)%nat) by by eapply lookup_lt_Some.
    destruct (exportSpread_run album all format cur (length spreads) i spread)
      as (_ & _ & _ & Hlast).
    eexists. split; [ exact Hlast | split ].
    + replace (2 * i + 2)%nat with (S (2 * i + 1)) by lia.
      exact (progress_lookup _ _ 0%nat i Hlt).
    + by apply progress_after.
  - destruct (length spreads) as [ | m ] eqn:Hm; [ lia | ].
    rewrite seq_S, flat_map_app. cbn [flat_map progress_around app Nat.add].
    eexists. split.
    + rewrite last_cons, last_app. cbn. reflexivity.
    + rewrite Nat.add_1_r. field.
      change 0 with (inject_Z 0). rewrite inject_Z_injective. lia.
  - intros ->. repeat constructor.
Qed.

(** A frame whose [drawImage] call throws leaves its [ctx.save()] without
    the [ctx.restore()]: the clip and the filter it set stay on the
    context for the frames after it. *)
Lemma drawFrame_restore_skipped (frame : PhotoFrame) (img : Image)
    (error : string) :
  resolveImage env frame = Some img ->
  drawImage_throws env img = Some error ->
  unrestored (drawFrame env frame).1 = 1%Z.
Proof.
  unfold resolveImage. intros Hres Hthrow. run_frame; simplify_eq; reflexivity.
Qed.

(** Every other frame leaves the context as it found it. *)
Lemma drawFrame_restored (frame : PhotoFrame) :
  (forall img, resolveImage env frame = Some img ->
               drawImage_throws env img = None) ->
  unrestored (drawFrame env frame).1 = 0%Z.
Proof.
  unfold resolveImage. intros Hok. run_frame; try reflexivity.
  all: specialize (Hok _ eq_refl); congruence.
Qed.

(** A frame whose image does not resolve (no preview URL, no blob, the
    store or the decoder rejecting) or whose [drawImage] call throws
    does not stop the loop: the frames of the spread are all visited, the
    render of the spread completes normally, and the [drawImage] calls
    made are those due to the frames before and after it.  What those
    calls paint depends on the state the failing frame leaves on the
    context. *)
Lemma frame_failure_does_not_abort (before after : list PhotoFrame)
    (failing : PhotoFrame) :
  (resolveImage env failing = None \/
   exists (img : Image) (error : string),
     resolveImage env failing = Some img /\
     drawImage_throws env img = Some error) ->
  (drawFrames env (before ++ failing :: after)).2 = Normal tt /\
  drawn_images (drawFrame env failing).1 = [] /\
  drawn_images (drawFrames env (before ++ failing :: after)).1
    = omap (due_drawImage env) before ++ omap (due_drawImage env) after /\
  (forall (frame : PhotoFrame) (img : Image),
     frame ∈ before ++ after ->
     resolveImage env frame = Some img ->
     drawImage_throws env img = None ->
     exists call, due_drawImage env frame = Some call /\
       call ∈ drawn_images (drawFrames env (before ++ failing :: after)).1) /\
  (forall (album : Album) (scope : ExportScope) (format : ExportFormat)
          (cur total i : nat) (spread : Spread),
     spread_frames spread = before ++ failing :: after ->
     (exportSpread env album scope format cur total i (Some spread)).2
       = Normal tt).
Proof.
  intros Hfail.
  assert (Hdue : due_drawImage env failing = None).
  { unfold due_drawImage.
    destruct Hfail as [-> | (img & e & -> & ->)]; reflexivity. }
  assert (Hdrawn :
    drawn_images (drawFrames env (before ++ failing :: after)).1
    = omap (due_drawImage env) before ++ omap (due_drawImage env) after).
  { rewrite drawFrames_drawn, omap_app. cbn [omap list_omap].
    by rewrite Hdue. }
  split; [ by rewrite drawFrames_run | ].
  split; [ by rewrite drawFrame_drawn, Hdue | ].
  split; [ exact Hdrawn | ].
  split.
  - intros frame img Hin Hres Hdraw. rewrite Hdrawn, <- omap_app.
    unfold due_drawImage at 1. rewrite Hres, Hdraw.
    eexists. split; [ reflexivity | ].
    apply list_elem_of_omap. exists frame. split; [ done | ].
    unfold due_drawImage. by rewrite Hres, Hdraw.
  - intros album scope format cur total i spread _.
    by destruct (exportSpread_run album scope format cur total i spread).
Qed.

End ExportProperties.

Lemma C8_export_progress_witness :
  Sorted Qle
    (progress_values
       (handleExport
          (mkCollaborators unit ∅ (fun _ => Resolved None)
             (fun _ => Rejected "decode") (fun _ => None) (fun _ => Some tt))
          (mkAlbum "album" "Wedding" (mkAlbumSize "12x18" "12x18" 18 12 true)
             300 (mkGutterSettings true (1 # 4)) [])
          (replicate 3 (mkSpread "spread" "album" 0 []))
          all jpeg 0)).
Proof.
  apply (C8_export_progress
           (mkCollaborators unit ∅ (fun _ => Resolved None)
              (fun _ => Rejected "decode") (fun _ => None) (fun _ => Some tt))
           (mkAlbum "album" "Wedding" (mkAlbumSize "12x18" "12x18" 18 12 true)
              300 (mkGutterSettings true (1 # 4)) [])
           (replicate 3 (mkSpread "spread" "album" 0 []))
           jpeg 0).
  discriminate.
Defined.


(** * Further properties *)

(** ** Unit conversion and template geometry *)

Lemma Math_round_integer (z : Z) : Math_round (inject_Z z) = inject_Z z.
Proof.
  unfold Math_round. f_equal.
  pose proof (Qfloor_le (inject_Z z + (1 # 2))) as Hle.
  pose proof (Qlt_floor (inject_Z z + (1 # 2))) as Hlt.
  set (f := Qfloor (inject_Z z + (1 # 2))) in *.
  rewrite inject_Z_plus in Hlt. change (inject_Z 1) with 1 in Hlt.
  assert (H1 : inject_Z f < inject_Z (z + 1)).
  { rewrite inject_Z_plus. change (inject_Z 1) with 1. lra. }
  assert (H2 : inject_Z z < inject_Z (f + 1)).
  { rewrite inject_Z_plus. change (inject_Z 1) with 1. lra. }
  rewrite <- Zlt_Qlt in H1, H2. lia.
Qed.

Lemma Math_round_proper (a b : Q) : a == b -> Math_round a = Math_round b.
Proof.
  intros Hab. unfold Math_round. f_equal. apply Qfloor_comp. by rewrite Hab.
Qed.

Lemma Math_round_mono (a b : Q) : a <= b -> Math_round a <= Math_round b.
Proof.
  intros Hab. unfold Math_round. rewrite <- Zle_Qle.
  apply Qfloor_resp_le. lra.
Qed.

(** X1: a whole number of pixels survives the conversion to inches and back:
    [inchesToPixels (pixelsToInches p dpi) dpi] is [p] for every integer [p]
    and positive [dpi]. *)
Theorem pixels_round_trip (p : Z) (d : Q) :
  0 < d ->
  inchesToPixels (pixelsToInches (inject_Z p) d) d = inject_Z p.
Proof.
  intros Hd. unfold inchesToPixels, pixelsToInches.
  rewrite <- (Math_round_integer p) at 2. apply Math_round_proper.
  field. lra.
Qed.

Lemma pixels_round_trip_witness :
  inchesToPixels (pixelsToInches (inject_Z 5400) 300) 300 = inject_Z 5400.
Proof. apply (pixels_round_trip 5400 300). reflexivity. Defined.

(** X2: [inchesToPixels] is monotone in both arguments on non-negative
    inputs, and never negative there: a larger page or a higher resolution
    never gives fewer pixels. *)
Theorem inchesToPixels_monotone (i i' d d' : Q) :
  0 <= i -> i <= i' -> 0 <= d -> d <= d' ->
  0 <= inchesToPixels i d /\ inchesToPixels i d <= inchesToPixels i' d'.
Proof.
  intros Hi Hii Hd Hdd. unfold inchesToPixels. split.
  - change 0 with (inject_Z 0). rewrite <- (Math_round_integer 0).
    apply Math_round_mono. change (inject_Z 0) with 0.
    apply Qmult_le_0_compat; lra.
  - apply Math_round_mono.
    apply Qle_trans with (i * d').
    + rewrite !(Qmult_comm i). apply Qmult_le_compat_r; lra.
    + apply Qmult_le_compat_r; lra.
Qed.

Lemma inchesToPixels_exact (inches dpi : Z) :
  inchesToPixels (inject_Z inches) (inject_Z dpi) = inject_Z (inches * dpi).
Proof.
  unfold inchesToPixels. rewrite <- (Math_round_integer (inches * dpi)).
  apply Math_round_proper. by rewrite inject_Z_mult.
Qed.

(** X3: for an album whose page size and resolution are whole numbers,
    the canvas is exactly width x dpi by height x dpi pixels: the rounding
    of [inchesToPixels] changes nothing. *)
Theorem getCanvasDimensions_exact (album : Album) (w h d : Z) :
  size_width (size album) = inject_Z w ->
  size_height (size album) = inject_Z h ->
  dpi album = inject_Z d ->
  getCanvasDimensions album = (inject_Z (w * d), inject_Z (h * d)).
Proof.
  intros Hw Hh Hd. unfold getCanvasDimensions. rewrite Hw, Hh, Hd.
  by rewrite !inchesToPixels_exact.
Qed.

(** X4: the Two Side by Side, One Large + Two Small and Six Mosaic
    templates keep the margin on every side: with a non-negative gutter and
    frames of non-negative size, every frame lies [m] inside each canvas
    edge, one frame starts at the corner [(m, m)] and one frame ends at
    [(w - m, h - m)]. *)
Theorem frames_inset_by_margin (t : LayoutTemplate) (w h g m : Q) :
  t ∈ [ two_side_by_side; three_one_two; six_mosaic ] ->
  0 <= g ->
  Forall (fun r => 0 <= width r /\ 0 <= height r) (generateFrames t w h g m) ->
  Forall (inset w h m) (generateFrames t w h g m) /\
  (exists r, r ∈ generateFrames t w h g m /\ x r == m /\ y r == m) /\
  (exists r, r ∈ generateFrames t w h g m /\
             x r + width r == w - m /\ y r + height r == h - m).
Proof.
  intros Ht Hg Hpos.
  repeat (apply elem_of_cons in Ht as [-> | Ht]); [ .. | by apply elem_of_nil in Ht ].
  all: cbn [generateFrames two_side_by_side three_one_two six_mosaic] in *.
  all: unfold SPACING in *.
  all: repeat (apply Forall_cons in Hpos as [[? ?] Hpos]); clear Hpos.
  all: cbn [x y width height rect] in *.
  all: split; [ unfold inset; repeat constructor; cbn [x y width height rect]; qlra | ].
  all: split.
  all: try (eexists; split; [ apply list_elem_of_here | ];
            cbn [x y width height rect]; split; reflexivity).
  - eexists. split; [ apply list_elem_of_further, list_elem_of_here | ].
    cbn [x y width height rect]. split; field.
  - eexists. split; [ do 2 apply list_elem_of_further; apply list_elem_of_here | ].
    cbn [x y width height rect]. split; field.
  - eexists. split; [ do 5 apply list_elem_of_further; apply list_elem_of_here | ].
    cbn [x y width height rect]. split; field.
Qed.

(** X5: every frame of every catalogue template is neutral: its [zIndex]
    is its position in the template, it is not rotated, not locked, has
    image scale 1, no image offset and no colour adjustment. *)
Theorem frames_neutral (t : LayoutTemplate) (w h g m : Q) (i : nat)
    (r : FrameGeometry) :
  t ∈ LAYOUT_TEMPLATES ->
  generateFrames t w h g m !! i = Some r ->
  zIndex r = Z.of_nat i /\ rotation r = 0 /\ locked r = false /\
  imageScale r = 1 /\ imageOffsetX r = 0 /\ imageOffsetY r = 0 /\
  brightness r = 0 /\ contrast r = 0 /\ temperature r = 0 /\ vibrance r = 0.
Proof.
  intros Ht Hr. each_template Ht.
  all: do 7 (try destruct i as [ | i ]); try discriminate Hr.
  all: injection Hr as <-; repeat split.
Qed.

(** ** Frame instantiation and spread generation *)

Local Close Scope Q_scope.

Section MoreFrames.
Variable uuid : nat -> string.

Lemma generateFramesForLayout_counter (t : LayoutTemplate)
    (photos : list Photo) (w h g m : Q) (n : nat) :
  (generateFramesForLayout uuid t photos w h g m n).2
  = (n + length (generateFramesForLayout uuid t photos w h g m n).1)%nat.
Proof.
  unfold generateFramesForLayout. rewrite mapi_uuid_frames. cbn [fst snd].
  by rewrite length_imap.
Qed.

Lemma generateFramesForLayout_frameIds (t : LayoutTemplate)
    (photos : list Photo) (w h g m : Q) (n : nat) :
  frame_id <$> (generateFramesForLayout uuid t photos w h g m n).1
  = uuid <$> seq n (length (generateFramesForLayout uuid t photos w h g m n).1).
Proof.
  rewrite generateFramesForLayout_imap, length_imap.
  generalize (take (length photos) (generateFrames t w h g m)). intros l.
  apply list_eq. intros i.
  rewrite !list_lookup_fmap, list_lookup_imap.
  destruct (l !! i) as [ r | ] eqn:Hr.
  - apply lookup_lt_Some in Hr as Hi.
    rewrite lookup_seq_lt by done. reflexivity.
  - apply lookup_ge_None in Hr.
    rewrite lookup_seq_ge by done. reflexivity.
Qed.

Lemma generateFramesForLayout_spec (t : LayoutTemplate)
    (photos : list Photo) (w h g m : Q) (n : nat) :
  t ∈ LAYOUT_TEMPLATES ->
  photoId <$> (generateFramesForLayout uuid t photos w h g m n).1
    = photo_id <$> take (Z.to_nat (photoCount t)) photos /\
  geometry <$> (generateFramesForLayout uuid t photos w h g m n).1
    = take (length photos) (generateFrames t w h g m) /\
  frame_id <$> (generateFramesForLayout uuid t photos w h g m n).1
    = uuid <$> seq n (Nat.min (length photos) (Z.to_nat (photoCount t))).
Proof.
  intros Ht.
  pose proof (generateFrames_length t w h g m Ht) as Hpc.
  pose proof (generateFramesForLayout_length uuid t photos w h g m n Ht) as Hlen.
  split; [ | split ].
  - rewrite generateFramesForLayout_imap.
    apply list_eq. intros i.
    rewrite !list_lookup_fmap, list_lookup_imap.
    destruct (photos !! i) as [ p | ] eqn:Hp.
    + apply lookup_lt_Some in Hp as Hlt.
      rewrite (lookup_take_lt (generateFrames t w h g m)) by done.
      destruct (decide (i < Z.to_nat (photoCount t))%nat) as [Hi | Hi].
      * rewrite lookup_take_lt, Hp by done.
        destruct (lookup_lt_is_Some_2 (generateFrames t w h g m) i ltac:(lia))
          as [r ->].
        cbn. f_equal. apply or_empty_id.
      * rewrite lookup_take_ge by lia.
        by rewrite (lookup_ge_None_2 (generateFrames t w h g m)) by lia.
    + apply lookup_ge_None in Hp.
      rewrite (lookup_take_ge (generateFrames t w h g m)) by done.
      rewrite (lookup_ge_None_2 (take _ photos)); [ done | ].
      rewrite length_take. lia.
  - rewrite generateFramesForLayout_imap, fmap_imap. unfold compose. cbn.
    generalize (take (length photos) (generateFrames t w h g m)).
    intros l. induction l as [ | a l IH ] using rev_ind; [ done | ].
    rewrite imap_app. cbn. by rewrite IH.
  - rewrite generateFramesForLayout_frameIds. do 2 f_equal. lia.
Qed.

(** X6: [generateFramesForLayout] with a catalogue template pairs the
    first photos with the first template rectangles, in order: the photo
    ids are those of the first [photoCount] photos, the geometries are the
    first [photos.length] rectangles of the template, the frame ids are
    consecutive draws of [uuidv4], and exactly
    [min photos.length photoCount] ids are drawn. *)
Theorem generateFramesForLayout_frames (t : LayoutTemplate)
    (photos : list Photo) (w h g m : Q) (n : nat) :
  t ∈ LAYOUT_TEMPLATES ->
  photoId <$> (generateFramesForLayout uuid t photos w h g m n).1
    = photo_id <$> take (Z.to_nat (photoCount t)) photos /\
  geometry <$> (generateFramesForLayout uuid t photos w h g m n).1
    = take (length photos) (generateFrames t w h g m) /\
  frame_id <$> (generateFramesForLayout uuid t photos w h g m n).1
    = uuid <$> seq n (Nat.min (length photos) (Z.to_nat (photoCount t))) /\
  (generateFramesForLayout uuid t photos w h g m n).2
    = (n + Nat.min (length photos) (Z.to_nat (photoCount t)))%nat.
Proof.
  intros Ht.
  destruct (generateFramesForLayout_spec t photos w h g m n Ht)
    as (Hp & Hg & Hf).
  split; [ done | ]. split; [ done | ]. split; [ done | ].
  rewrite generateFramesForLayout_counter. f_equal.
  pose proof (generateFramesForLayout_length uuid t photos w h g m n Ht).
  pose proof (generateFrames_length t w h g m Ht). lia.
Qed.

Lemma placed_photoIds_snoc (spreads : list SpreadFrames) (fs : list PhotoFrame) :
  placed_photoIds (spreads ++ [ {| frames := fs |} ])
  = placed_photoIds spreads ++ (photoId <$> fs).
Proof.
  unfold placed_photoIds. rewrite bind_app. cbn. by rewrite app_nil_r.
Qed.

Lemma placed_frameIds_snoc (spreads : list SpreadFrames) (fs : list PhotoFrame) :
  placed_frameIds (spreads ++ [ {| frames := fs |} ])
  = placed_frameIds spreads ++ (frame_id <$> fs).
Proof.
  unfold placed_frameIds. rewrite bind_app. cbn. by rewrite app_nil_r.
Qed.

Lemma slice_chunk (photos : list Photo) (i p : nat) :
  slice i (i + p) photos = take p (drop i photos).
Proof. unfold slice. do 2 f_equal. lia. Qed.

(** The photos placed by the loop from [i] on are photos from [i] on, in
    their order, none twice. *)
Lemma autoGenerateSpreads_loop_placed (photos : list Photo) (p : nat)
    (w h g m : Q) (r : list SpreadFrames) :
  forall (fuel i : nat) (acc : list SpreadFrames) (n : nat),
    autoGenerateSpreads_loop uuid fuel photos p w h g m i acc n = Returned r ->
    exists rest : list string,
      placed_photoIds r = placed_photoIds acc ++ rest /\
      rest `sublist_of` (photo_id <$> drop i photos) /\
      ((1 <= p <= 4)%nat -> rest = photo_id <$> drop i photos).
Proof.
  induction fuel as [ | fuel IH ]; intros i acc n; [ discriminate | ].
  cbn [autoGenerateSpreads_loop].
  destruct (Nat.ltb_spec i (length photos)) as [Hi | Hi].
  - rewrite slice_chunk.
    destruct (getLayoutForPhotoCount_nearest
                (Z.of_nat (length (take p (drop i photos)))))
      as (j & t & Hget & Hj & Hnear).
    rewrite Hget.
    assert (Ht : t ∈ LAYOUT_TEMPLATES) by by apply list_elem_of_lookup_2 in Hj.
    destruct (generateFramesForLayout_spec t (take p (drop i photos))
                w h g m n Ht) as (Hids & _ & _).
    destruct (generateFramesForLayout uuid t (take p (drop i photos)) w h g m n)
      as [fs n'].
    cbn [fst] in Hids. intros Hrun.
    destruct (IH _ _ _ Hrun) as (rest & Hplaced & Hsub & Hall).
    rewrite placed_photoIds_snoc, <- app_assoc in Hplaced.
    exists ((photoId <$> fs) ++ rest). split; [ done | ].
    assert (Hsplit : photo_id <$> drop i photos
              = (photo_id <$> take p (drop i photos))
                ++ (photo_id <$> drop (i + p) photos)).
    { rewrite <- fmap_app, <- drop_drop, take_drop. reflexivity. }
    rewrite Hsplit. split.
    + apply sublist_app; [ | done ].
      rewrite Hids. apply fmap_sublist, sublist_take.
    + intros Hp. rewrite (Hall Hp), Hids. f_equal.
      rewrite take_ge; [ done | ].
      assert (Hlen : (1 <= length (take p (drop i photos)) <= 4)%nat).
      { rewrite length_take, length_drop. lia. }
      revert Hget Hlen.
      generalize (length (take p (drop i photos))). intros k Hget Hk.
      do 5 (destruct k as [ | k ]; [ try lia; injection Hget as <-; cbn; lia | ]).
      lia.
  - intros [= <-]. exists []. rewrite app_nil_r, drop_ge by done.
    split; [ done | split; [ done | done ] ].
Qed.

Lemma autoGenerateSpreads_loop_frameIds (photos : list Photo) (p : nat)
    (w h g m : Q) (r : list SpreadFrames) (n0 : nat) :
  forall (fuel i : nat) (acc : list SpreadFrames) (n : nat),
    autoGenerateSpreads_loop uuid fuel photos p w h g m i acc n = Returned r ->
    (n0 <= n)%nat ->
    placed_frameIds acc = uuid <$> seq n0 (n - n0) ->
    exists n' : nat, (n <= n')%nat /\
      placed_frameIds r = uuid <$> seq n0 (n' - n0).
Proof.
  induction fuel as [ | fuel IH ]; intros i acc n; [ discriminate | ].
  cbn [autoGenerateSpreads_loop].
  destruct (i <? length photos)%nat.
  - destruct (getLayoutForPhotoCount _) as [ t | ]; [ | discriminate ].
    pose proof (generateFramesForLayout_frameIds t
                  (slice i (i + p) photos) w h g m n) as Hids.
    pose proof (generateFramesForLayout_counter t
                  (slice i (i + p) photos) w h g m n) as Hn.
    destruct (generateFramesForLayout uuid t (slice i (i + p) photos) w h g m n)
      as [fs n'].
    cbn [fst snd] in Hids, Hn. intros Hrun Hle Hacc.
    destruct (IH _ _ _ Hrun ltac:(lia)) as (n'' & Hle' & Hr).
    + rewrite placed_frameIds_snoc, Hacc, Hids, <- fmap_app.
      f_equal. replace (n' - n0)%nat with ((n - n0) + length fs)%nat by lia.
      rewrite seq_app. do 2 f_equal. lia.
    + exists n''. split; [ lia | done ].
  - intros [= <-] Hle Hacc. exists n. split; [ lia | done ].
Qed.

Lemma autoGenerateSpreads_returns (photos : list Photo) (p : nat)
    (album : Album) (n : nat) :
  (0 < p)%nat ->
  exists spreads : list SpreadFrames,
    autoGenerateSpreads uuid (S (length photos)) photos p album n
    = Returned spreads.
Proof.
  intros Hp. unfold autoGenerateSpreads.
  destruct (getCanvasDimensions album) as [w h].
  destruct (autoGenerateSpreads_loop_spec uuid photos p w h
              (getGutterPixels album) (Math_round (dpi album * (2 # 10)))
              Hp (S (length photos)) 0 [] n ltac:(lia))
    as (spreads & Hrun & _).
  by exists spreads.
Qed.

(** X7: with a positive [photosPerSpread], [autoGenerateSpreads] returns,
    and the photos it places, read spread by spread, are a subsequence of
    the input in its order; for at most 4 photos per spread every photo is
    placed exactly once. *)
Theorem autoGenerateSpreads_places_in_order (photos : list Photo) (p : nat)
    (album : Album) (n : nat) :
  (0 < p)%nat ->
  exists spreads : list SpreadFrames,
    autoGenerateSpreads uuid (S (length photos)) photos p album n
      = Returned spreads /\
    placed_photoIds spreads `sublist_of` (photo_id <$> photos) /\
    ((p <= 4)%nat -> placed_photoIds spreads = photo_id <$> photos).
Proof.
  intros Hp.
  destruct (autoGenerateSpreads_returns photos p album n Hp) as [spreads Hrun].
  exists spreads. split; [ done | ].
  unfold autoGenerateSpreads in Hrun.
  destruct (getCanvasDimensions album) as [w h].
  destruct (autoGenerateSpreads_loop_placed _ _ _ _ _ _ _ _ _ _ _ Hrun)
    as (rest & Hplaced & Hsub & Hall).
  cbn in Hplaced. rewrite drop_0 in *. rewrite Hplaced.
  split; [ done | ]. intros Hp4. apply Hall. lia.
Qed.

(** X8: when [uuidv4] never repeats, no two frames of the spreads
    [autoGenerateSpreads] returns share an id, within a spread or across
    spreads. *)
Theorem autoGenerateSpreads_fresh_ids (photos : list Photo) (p : nat)
    (album : Album) (n : nat) :
  (0 < p)%nat ->
  (forall a b : nat, uuid a = uuid b -> a = b) ->
  exists spreads : list SpreadFrames,
    autoGenerateSpreads uuid (S (length photos)) photos p album n
      = Returned spreads /\
    NoDup (placed_frameIds spreads).
Proof.
  intros Hp Hinj.
  destruct (autoGenerateSpreads_returns photos p album n Hp) as [spreads Hrun].
  exists spreads. split; [ done | ].
  unfold autoGenerateSpreads in Hrun.
  destruct (getCanvasDimensions album) as [w h].
  destruct (autoGenerateSpreads_loop_frameIds _ _ _ _ _ _ _ n _ _ _ _ Hrun)
    as (n' & _ & ->); [ lia | by rewrite Nat.sub_diag | ].
  apply NoDup_fmap_2; [ exact Hinj | apply NoDup_seq ].
Qed.

(** X9: the two edges of the loop of [autoGenerateSpreads]: without
    photos it returns no spread; with photos and [photosPerSpread = 0] the
    index never advances, so no number of iterations makes it return. *)
Theorem autoGenerateSpreads_edges (photos : list Photo) (p : nat)
    (album : Album) (n fuel : nat) :
  (photos = [] ->
   autoGenerateSpreads uuid (S fuel) photos p album n = Returned []) /\
  (photos <> [] -> p = 0%nat ->
   autoGenerateSpreads uuid fuel photos p album n = OutOfFuel).
Proof.
  unfold autoGenerateSpreads. destruct (getCanvasDimensions album) as [w h].
  split.
  - intros ->. reflexivity.
  - intros Hne ->. by apply autoGenerateSpreads_loop_zero.
Qed.
End MoreFrames.

Local Open Scope Q_scope.

(** ** Cover fit *)

Lemma coverFit_scaled_size (frame : FrameGeometry) (img : Image) :
  0 < img_width img -> 0 < img_height img ->
  0 < width frame -> 0 < height frame ->
  (img_width img * scale (coverFit frame img) == width frame /\
   height frame <= img_height img * scale (coverFit frame img)) \/
  (img_height img * scale (coverFit frame img) == height frame /\
   width frame <= img_width img * scale (coverFit frame img)).
Proof.
  intros Hiw Hih Hfw Hfh. unfold coverFit.
  assert (Ha : 0 < / img_width img) by by apply Qinv_lt_0_compat.
  assert (Hb : 0 < / height frame) by by apply Qinv_lt_0_compat.
  assert (Hc : 0 < / img_height img) by by apply Qinv_lt_0_compat.
  assert (Hbb : height frame * / height frame == 1) by (apply Qmult_inv_r; lra).
  assert (Haa : img_width img * / img_width img == 1) by (apply Qmult_inv_r; lra).
  assert (Hcc : img_height img * / img_height img == 1) by (apply Qmult_inv_r; lra).
  destruct (Qgtb _ _) eqn:Hcmp; cbn [scale].
  - right. apply Qgtb_lt in Hcmp. revert Hcmp. unfold Qdiv.
    set (a := / img_width img) in *. set (b := / height frame) in *.
    set (c := / img_height img) in *. intros Hlt.
    split.
    + transitivity (height frame * (img_height img * c)); [ ring | ].
      rewrite Hcc. ring.
    + assert (H1 : width frame * b * height frame
                   <= img_width img * c * height frame).
      { apply Qmult_le_compat_r; lra. }
      assert (E1 : width frame * b * height frame == width frame).
      { transitivity (width frame * (height frame * b)); [ ring | ].
        rewrite Hbb. ring. }
      rewrite E1 in H1.
      assert (E2 : img_width img * (height frame * c)
                   == img_width img * c * height frame) by ring.
      rewrite E2. exact H1.
  - left. apply not_true_iff_false in Hcmp. rewrite Qgtb_lt in Hcmp.
    apply Qnot_lt_le in Hcmp. revert Hcmp. unfold Qdiv.
    set (a := / img_width img) in *. set (b := / height frame) in *.
    set (c := / img_height img) in *. intros Hle.
    split.
    + transitivity (width frame * (img_width img * a)); [ ring | ].
      rewrite Haa. ring.
    + assert (H1 : img_width img * c * (height frame * img_height img * a)
                   <= width frame * b * (height frame * img_height img * a)).
      { apply Qmult_le_compat_r; [ assumption | ].
        apply Qlt_le_weak. repeat apply Qmult_lt_0_compat; assumption. }
      assert (E1 : img_width img * c * (height frame * img_height img * a)
                   == height frame).
      { transitivity ((img_width img * a) * (img_height img * c) * height frame);
          [ ring | rewrite Haa, Hcc; ring ]. }
      assert (E2 : width frame * b * (height frame * img_height img * a)
                   == img_height img * (width frame * a)).
      { transitivity ((height frame * b) * (img_height img * (width frame * a)));
          [ ring | rewrite Hbb; ring ]. }
      rewrite E1, E2 in H1. exact H1.
Qed.

Lemma coverFit_offsets (frame : FrameGeometry) (img : Image) :
  (offsetX (coverFit frame img)
     == (width frame - img_width img * scale (coverFit frame img)) / 2 /\
   offsetY (coverFit frame img) == 0) \/
  (offsetX (coverFit frame img) == 0 /\
   offsetY (coverFit frame img)
     == (height frame - img_height img * scale (coverFit frame img)) / 2).
Proof.
  unfold coverFit. destruct (Qgtb _ _); cbn; [ left | right ]; split; reflexivity.
Qed.

(** X10: for a frame with the default crop (image scale 1, no offset),
    the rectangle handed to [drawImage] contains the frame, matches it in
    width or in height, and keeps the aspect ratio of the image. *)
Theorem drawImage_covers_frame (env : Collaborators) (frame : PhotoFrame)
    (img : Image) (dx dy dw dh : Q) :
  due_drawImage env frame = Some (img, dx, dy, dw, dh) ->
  0 < img_width img -> 0 < img_height img ->
  0 < width (geometry frame) -> 0 < height (geometry frame) ->
  imageScale (geometry frame) == 1 ->
  imageOffsetX (geometry frame) == 0 ->
  imageOffsetY (geometry frame) == 0 ->
  dx <= x (geometry frame) /\
  x (geometry frame) + width (geometry frame) <= dx + dw /\
  dy <= y (geometry frame) /\
  y (geometry frame) + height (geometry frame) <= dy + dh /\
  (dw == width (geometry frame) \/ dh == height (geometry frame)) /\
  dw * img_height img == dh * img_width img.
Proof.
  unfold due_drawImage. intros Hdue Hiw Hih Hfw Hfh Hs Hox Hoy.
  destruct (resolveImage env frame) as [ img' | ]; [ | discriminate ].
  destruct (drawImage_throws env img'); [ discriminate | ].
  injection Hdue as -> <- <- <- <-.
  set (g := geometry frame) in *.
  destruct (coverFit_scaled_size g img Hiw Hih Hfw Hfh) as [[Hw Hh] | [Hh Hw]];
    destruct (coverFit_offsets g img) as [[Hx Hy] | [Hx Hy]].
  all: set (s := scale (coverFit g img)) in *.
  all: set (ox := offsetX (coverFit g img)) in *.
  all: set (oy := offsetY (coverFit g img)) in *.
  all: rewrite Hs, Hox, Hoy.
  all: assert (Hx' := Hx); assert (Hy' := Hy).
  all: unfold Qdiv in Hx', Hy'; change (/ 2) with (1 # 2) in *.
  all: repeat split; try lra.
  all: try (left; lra); try (right; lra).
  all: ring.
Qed.

(** ** Export *)

Local Close Scope Q_scope.

Lemma sanitise_char_safe (c : ascii) :
  safe_char (toLowerCase_char (if matches_alnum c then c else "_"%char)) = true.
Proof. destruct c as [[] [] [] [] [] [] [] []]; reflexivity. Qed.

Lemma sanitise_char_fixed (c : ascii) :
  safe_char c = true ->
  toLowerCase_char (if matches_alnum c then c else "_"%char) = c.
Proof. destruct c as [[] [] [] [] [] [] [] []]; intros H; try reflexivity; discriminate H. Qed.

Lemma string_map_length (f : ascii -> ascii) (s : string) :
  String.length (string_map f s) = String.length s.
Proof. induction s as [ | c s IH ]; cbn; [ done | by rewrite IH ]. Qed.

Lemma safeName_chars (name : string) :
  string_forallb safe_char (safeName name) = true.
Proof.
  unfold safeName. induction name as [ | c s IH ]; [ done | ].
  cbn [string_map string_forallb]. by rewrite sanitise_char_safe, IH.
Qed.

Lemma safeName_fixed (name : string) :
  string_forallb safe_char name = true -> safeName name = name.
Proof.
  unfold safeName. induction name as [ | c s IH ]; [ done | ].
  cbn [string_map string_forallb]. intros [Hc Hs]%andb_true_iff.
  by rewrite sanitise_char_fixed, IH.
Qed.

(** X16: the file-name stem [safeName] has the length of the album name,
    consists of lower-case ASCII letters, digits and underscores only, is
    idempotent, and leaves a name of such characters unchanged. *)
Theorem safeName_sanitises (name : string) :
  String.length (safeName name) = String.length name /\
  string_forallb safe_char (safeName name) = true /\
  safeName (safeName name) = safeName name /\
  (string_forallb safe_char name = true -> safeName name = name).
Proof.
  split; [ | split; [ | split ] ].
  - unfold safeName. by rewrite !string_map_length.
  - apply safeName_chars.
  - apply safeName_fixed, safeName_chars.
  - apply safeName_fixed.
Qed.

Lemma append_length (a b : string) :
  String.length (a +:+ b) = (String.length a + String.length b)%nat.
Proof. induction a as [ | c a IH ]; simpl; [ done | by rewrite IH ]. Qed.

Lemma append_inv_tail (a b s : string) : a +:+ s = b +:+ s -> a = b.
Proof.
  revert b. induction a as [ | c a IH ]; intros [ | d b ] Heq; simpl in Heq.
  - done.
  - apply (f_equal String.length) in Heq. simpl in Heq.
    rewrite !append_length in Heq. simpl in Heq. lia.
  - apply (f_equal String.length) in Heq. simpl in Heq.
    rewrite !append_length in Heq. simpl in Heq. lia.
  - injection Heq as -> Heq. f_equal. by apply IH.
Qed.

Theorem download_filename_inj (albumName : string) (format : ExportFormat)
    (i j : nat) :
  download_filename albumName i format = download_filename albumName j format ->
  i = j.
Proof.
  unfold download_filename. intros Heq.
  apply String.app_inj in Heq. apply (String.app_inj "_spread_") in Heq.
  apply (inj pretty).
  by apply (append_inv_tail _ _ ("." +:+ format_extension format)).
Qed.

Local Open Scope Q_scope.

Section MoreExport.
Variable env : Collaborators.

Lemma exportSpread_events (album : Album) (scope : ExportScope)
    (format : ExportFormat) (cur total i : nat) (spread : Spread) :
  exportSpread env album scope format cur total i (Some spread)
  = ([ SetProgress (inject_Z (Z.of_nat i) / inject_Z (Z.of_nat total) * 100);
       CreateCanvas (fst (getCanvasDimensions album))
                    (snd (getCanvasDimensions album));
       Ctx (FillStyle "#ffffff");
       Ctx (FillRect 0 0 (fst (getCanvasDimensions album))
                         (snd (getCanvasDimensions album))) ]
     ++ (drawFrames env (spread_frames spread)).1
     ++ (if bool_decide (is_Some (toBlob env i))
         then [ Download (album_name album)
                  match scope with
                  | current => (cur + 1)%nat
                  | all => (i + 1)%nat
                  end format ]
         else [])
     ++ [ SetProgress (inject_Z (Z.of_nat (i + 1))
                       / inject_Z (Z.of_nat total) * 100) ],
     Normal tt).
Proof.
  unfold exportSpread. destruct (getCanvasDimensions album) as [w h].
  rewrite drawFrames_run. unfold when, bind, emit, ret. cbn [fst snd].
  destruct (bool_decide _); cbn [app]; by rewrite ?app_nil_r, <- ?app_assoc.
Qed.

Lemma exportSpread_missing (album : Album) (scope : ExportScope)
    (format : ExportFormat) (cur total i : nat) :
  exportSpread env album scope format cur total i None
  = ([ SetProgress (inject_Z (Z.of_nat i) / inject_Z (Z.of_nat total) * 100);
       CreateCanvas (fst (getCanvasDimensions album))
                    (snd (getCanvasDimensions album));
       Ctx (FillStyle "#ffffff");
       Ctx (FillRect 0 0 (fst (getCanvasDimensions album))
                         (snd (getCanvasDimensions album))) ],
     Throw "TypeError").
Proof.
  unfold exportSpread. by destruct (getCanvasDimensions album) as [w h].
Qed.

Lemma frame_event_loop_event (es : list Event) :
  Forall frame_event es -> Forall loop_event es.
Proof. intros H. eapply Forall_impl; [ exact H | ]. by intros []. Qed.

Lemma drawFrames_events (frames : list PhotoFrame) :
  Forall frame_event (drawFrames env frames).1.
Proof.
  rewrite drawFrames_run. cbn [fst].
  induction frames as [ | f frames IH ]; [ constructor | ].
  cbn. apply Forall_app. split; [ apply drawFrame_events | exact IH ].
Qed.

Lemma downloads_frame_events (es : list Event) :
  Forall frame_event es -> downloads es = [].
Proof.
  induction 1 as [ | e es He _ IH ]; [ done | ].
  destruct e; try done; exact IH.
Qed.

Lemma exportSpread_loop_events (album : Album) (scope : ExportScope)
    (format : ExportFormat) (cur total i : nat) (spread : option Spread) :
  Forall loop_event (exportSpread env album scope format cur total i spread).1.
Proof.
  destruct spread as [ spread | ].
  - rewrite exportSpread_events. cbn [fst].
    repeat first [ apply Forall_cons; split; [ exact I | ] | apply Forall_app; split ].
    + apply frame_event_loop_event, drawFrames_events.
    + destruct (bool_decide _); repeat constructor.
    + repeat constructor.
  - rewrite exportSpread_missing. repeat constructor.
Qed.

Lemma exportLoop_loop_events (album : Album) (scope : ExportScope)
    (format : ExportFormat) (cur total : nat) (rest : list (option Spread)) :
  forall i : nat,
    Forall loop_event (exportLoop env album scope format cur total i rest).1.
Proof.
  induction rest as [ | spread rest IH ]; intros i; [ constructor | ].
  cbn [exportLoop].
  pose proof (exportSpread_loop_events album scope format cur total i spread) as Hs.
  destruct (exportSpread env album scope format cur total i spread) as [es c].
  specialize (IH (S i)). unfold bind.
  destruct c as [ [] | | e ]; [ | done | done ].
  destruct (exportLoop env album scope format cur total (S i) rest) as [es' c'].
  cbn [fst] in *. by apply Forall_app.
Qed.

Ltac split_or H :=
  lazymatch type of H with
  | _ \/ _ => destruct H as [H | H]; split_or H
  | _ => idtac
  end.

Lemma not_loop_event (es : list Event) (e : Event) :
  Forall loop_event es -> ~ loop_event e -> e ∉ es.
Proof.
  intros Hes He Hin. rewrite Forall_forall in Hes. by apply He, Hes.
Qed.

Lemma exportLoop_downloads (album : Album) (format : ExportFormat)
    (cur total : nat) (spreads : list Spread) :
  forall i : nat,
    downloads (exportLoop env album all format cur total i (Some <$> spreads)).1
    = (fun k => (album_name album, (k + 1)%nat, format))
        <$> filter (fun k => is_Some (toBlob env k)) (seq i (length spreads)).
Proof.
  induction spreads as [ | s spreads IH ]; intros i; [ done | ].
  cbn [fmap list_fmap exportLoop length seq].
  rewrite exportSpread_events. unfold bind.
  fold (@fmap list _ _ _ Some spreads).
  destruct (exportLoop_run env album all format cur total spreads (S i))
    as (Hc & _ & _).
  specialize (IH (S i)).
  destruct (exportLoop env album all format cur total (S i) (Some <$> spreads))
    as [es' c'].
  cbn [fst snd] in *. subst c'.
  unfold downloads in *. rewrite !omap_app, IH.
  fold (downloads (drawFrames env (spread_frames s)).1).
  rewrite (downloads_frame_events _ (drawFrames_events _)).
  rewrite filter_cons. cbn [omap list_omap app].
  destruct (decide (is_Some (toBlob env i))) as [Hb | Hb].
  - rewrite bool_decide_eq_true_2 by done. reflexivity.
  - rewrite bool_decide_eq_false_2 by done. reflexivity.
Qed.

(** X11: exporting all spreads triggers one download per spread whose
    canvas encodes to a blob, in spread order, numbered from 1 by the
    position of the spread; no two of the downloaded files share a name. *)
Theorem handleExport_all_downloads (album : Album) (spreads : list Spread)
    (format : ExportFormat) (cur : nat) :
  downloads (handleExport env album spreads all format cur)
  = (fun k => (album_name album, (k + 1)%nat, format))
      <$> filter (fun k => is_Some (toBlob env k)) (seq 0 (length spreads)) /\
  NoDup (filenames (downloads (handleExport env album spreads all format cur))).
Proof.
  assert (Hd : downloads (handleExport env album spreads all format cur)
    = (fun k => (album_name album, (k + 1)%nat, format))
        <$> filter (fun k => is_Some (toBlob env k)) (seq 0 (length spreads))).
  { unfold handleExport. rewrite length_fmap.
    pose proof (exportLoop_downloads album format cur (length spreads) spreads
                  0%nat) as Hl.
    destruct (exportLoop_run env album all format cur (length spreads) spreads
                0%nat) as (Hc & _ & _).
    destruct (exportLoop env album all format cur (length spreads) 0
                (Some <$> spreads)) as [es c].
    cbn [fst snd] in *. subst c.
    unfold try_catch, bind, emit. cbn [fst snd app].
    unfold downloads in *. cbn [omap list_omap].
    rewrite !omap_app, Hl. cbn. by rewrite !app_nil_r. }
  split; [ exact Hd | ].
  rewrite Hd. unfold filenames. rewrite <- list_fmap_compose.
  apply NoDup_fmap_2_strong; [ | apply NoDup_filter, NoDup_seq ].
  intros i j _ _ Heq. cbn in Heq.
  apply download_filename_inj in Heq. lia.
Qed.

(** X12: exporting the current spread, when it exists, reports progress
    0, 0, 100, draws the frames of that spread only, downloads at most one
    file, numbered [currentSpreadIndex + 1], and ends in the success toast
    for one spread, with no error toast. *)
Theorem handleExport_current (album : Album) (spreads : list Spread)
    (format : ExportFormat) (cur : nat) (spread : Spread) :
  spreads !! cur = Some spread ->
  Forall2 Qeq (progress_values (handleExport env album spreads current format cur))
    [ 0; 0; 100 ] /\
  drawn_images (handleExport env album spreads current format cur)
    = omap (due_drawImage env) (spread_frames spread) /\
  downloads (handleExport env album spreads current format cur)
    = (if bool_decide (is_Some (toBlob env 0))
       then [ (album_name album, (cur + 1)%nat, format) ] else []) /\
  ToastSuccess 1 ∈ handleExport env album spreads current format cur /\
  ToastError ∉ handleExport env album spreads current format cur.
Proof.
  intros Hs. unfold handleExport. rewrite Hs. cbn [length exportLoop].
  pose proof (drawFrames_events (spread_frames spread)) as Hev.
  pose proof (drawFrames_drawn env (spread_frames spread)) as Hdr.
  rewrite exportSpread_events.
  unfold try_catch, bind, emit, ret. cbn [fst snd app].
  set (fs := (drawFrames env (spread_frames spread)).1) in *.
  repeat split.
  - unfold progress_values. cbn [omap list_omap]. rewrite !omap_app.
    fold (progress_values fs).
    rewrite (progress_values_frame_events _ Hev).
    destruct (bool_decide _); cbn; repeat constructor.
  - unfold drawn_images in *. cbn [omap list_omap]. rewrite !omap_app, Hdr.
    destruct (bool_decide _); cbn; by rewrite !app_nil_r.
  - unfold downloads. cbn [omap list_omap]. rewrite !omap_app.
    fold (downloads fs). rewrite (downloads_frame_events _ Hev).
    destruct (bool_decide _); reflexivity.
  - rewrite !elem_of_cons, !elem_of_app, !elem_of_cons. tauto.
  - apply frame_event_loop_event in Hev.
    intros Hin. rewrite !elem_of_cons, !elem_of_app, !elem_of_cons in Hin.
    split_or Hin; try discriminate Hin.
    all: try (by apply elem_of_nil in Hin).
    all: try (exfalso; exact (not_loop_event fs ToastError Hev (fun H => H) Hin)).
    destruct (bool_decide _);
      [ apply list_elem_of_singleton in Hin; discriminate
      | by apply elem_of_nil in Hin ].
Qed.

(** X13: exporting the current spread when [currentSpreadIndex] is out of
    range fails: the canvas is created and filled, then reading the frames
    of the missing spread throws, the error is logged, the error toast is
    shown, nothing is downloaded and [isExporting] is reset. *)
Theorem handleExport_current_missing (album : Album) (spreads : list Spread)
    (format : ExportFormat) (cur : nat) :
  spreads !! cur = None ->
  handleExport env album spreads current format cur
  = [ SetIsExporting true; SetProgress 0; SetCompleted false;
      SetProgress (inject_Z 0 / inject_Z 1 * 100);
      CreateCanvas (fst (getCanvasDimensions album))
                   (snd (getCanvasDimensions album));
      Ctx (FillStyle "#ffffff");
      Ctx (FillRect 0 0 (fst (getCanvasDimensions album))
                        (snd (getCanvasDimensions album)));
      ConsoleError "Export failed:" "TypeError";
      ToastError;
      SetIsExporting false ].
Proof.
  intros Hs. unfold handleExport. rewrite Hs. cbn [length exportLoop].
  rewrite exportSpread_missing. reflexivity.
Qed.

(** X14: exporting all spreads never reaches the catch block: the run is
    the three initial state updates, the events of the loop, and then
    [setCompleted(true)], the success toast with the number of spreads and
    [setIsExporting(false)]; with no spread the loop does nothing. *)
Theorem handleExport_all_succeeds (album : Album) (spreads : list Spread)
    (format : ExportFormat) (cur : nat) :
  exists es : list Event,
    handleExport env album spreads all format cur
    = [ SetIsExporting true; SetProgress 0; SetCompleted false ] ++ es
      ++ [ SetCompleted true; ToastSuccess (length spreads);
           SetIsExporting false ] /\
    Forall loop_event es /\
    (spreads = [] -> es = []).
Proof.
  unfold handleExport. rewrite length_fmap.
  pose proof (exportLoop_loop_events album all format cur (length spreads)
                (Some <$> spreads) 0%nat) as Hev.
  destruct (exportLoop_run env album all format cur (length spreads) spreads
              0%nat) as (Hc & _ & _).
  assert (Hnil : spreads = [] ->
    (exportLoop env album all format cur (length spreads) 0
       (Some <$> spreads)).1 = []) by (by intros ->).
  destruct (exportLoop env album all format cur (length spreads) 0
              (Some <$> spreads)) as [es c].
  cbn [fst snd] in *. subst c. exists es.
  unfold try_catch, bind, emit. cbn [fst snd app].
  split; [ | done ]. by rewrite <- !app_assoc.
Qed.

Ltac run_draw :=
  unfold drawFrame, drawFrame_try, drawImage_fails, resolveImage, try_catch,
    await, when, bind, emit, continue, throw, ret;
  repeat match goal with
  | |- context [match ?c with _ => _ end] =>
      lazymatch c with
      | context [match _ with _ => _ end] => fail
      | _ => destruct c eqn:?
      end
  end.

Lemma unrestored_app (es es' : list Event) :
  unrestored (es ++ es') = (unrestored es + unrestored es')%Z.
Proof.
  induction es as [ | e es IH ]; [ done | ].
  cbn [app unrestored foldr]. fold (unrestored (es ++ es')). fold (unrestored es).
  rewrite IH. destruct e as [ | | | | [] | | | | ]; lia.
Qed.

Lemma drawFrame_unrestored (frame : PhotoFrame) :
  unrestored (drawFrame env frame).1
  = (if drawImage_fails env frame then 1 else 0)%Z.
Proof.
  run_draw; simplify_eq; try reflexivity.
  all: try (exfalso; by eapply is_Some_None).
  all: match goal with
       | H : bool_decide _ = _ |- _ =>
           first [ apply bool_decide_eq_true_1 in H
                 | apply bool_decide_eq_false_1 in H ]
       end.
  all: try (exfalso; by eapply is_Some_None).
  all: exfalso; eauto.
Qed.

(** X15: the canvas state stack leaks one level per failed [drawImage]:
    after the frames of a spread are drawn, the [ctx.save()] calls left
    without their [ctx.restore()] are exactly the frames whose [drawImage]
    threw. *)
Theorem drawFrames_unrestored (frames : list PhotoFrame) :
  unrestored (drawFrames env frames).1
  = Z.of_nat (length (filter (fun f => drawImage_fails env f = true) frames)).
Proof.
  rewrite drawFrames_run. cbn [fst].
  induction frames as [ | f frames IH ]; [ done | ].
  cbn [fmap list_fmap concat]. rewrite unrestored_app, IH, drawFrame_unrestored.
  rewrite filter_cons.
  destruct (drawImage_fails env f); cbn.
  - rewrite decide_True by done. cbn [length]. lia.
  - rewrite decide_False by done. lia.
Qed.
End MoreExport.

(** ** Thumbnails *)

Lemma Qgtb_le (a b : Q) : Qgtb a b = false <-> a <= b.
Proof.
  rewrite <- not_true_iff_false, Qgtb_lt.
  split; [ apply Qnot_lt_le | apply Qle_not_lt ].
Qed.

(** X17: the thumbnail size computed by [createThumbnail] fits in the
    [maxSize] square, never enlarges the image, keeps its aspect ratio,
    leaves an image that already fits unchanged, and otherwise makes the
    longer side exactly [maxSize]. *)
Theorem thumbnailSize_fits (width height maxSize : Q) :
  0 < width -> 0 < height -> 0 < maxSize ->
  (thumbnailSize width height maxSize).1 <= maxSize /\
  (thumbnailSize width height maxSize).2 <= maxSize /\
  (thumbnailSize width height maxSize).1 <= width /\
  (thumbnailSize width height maxSize).2 <= height /\
  (thumbnailSize width height maxSize).1 * height
    == (thumbnailSize width height maxSize).2 * width /\
  (width <= maxSize -> height <= maxSize ->
   thumbnailSize width height maxSize = (width, height)) /\
  (maxSize < width \/ maxSize < height ->
   (thumbnailSize width height maxSize).1 == maxSize \/
   (thumbnailSize width height maxSize).2 == maxSize).
Proof.
  intros Hw Hh Hm. unfold thumbnailSize.
  assert (Hiw : 0 < / width) by by apply Qinv_lt_0_compat.
  assert (Hih : 0 < / height) by by apply Qinv_lt_0_compat.
  assert (Hww : width * / width == 1) by (apply Qmult_inv_r; lra).
  assert (Hhh : height * / height == 1) by (apply Qmult_inv_r; lra).
  destruct (Qgtb width height) eqn:Hwh;
    [ apply Qgtb_lt in Hwh | apply Qgtb_le in Hwh ].
  - destruct (Qgtb width maxSize) eqn:Hwm;
      [ apply Qgtb_lt in Hwm | apply Qgtb_le in Hwm ]; cbn [fst snd].
    + unfold Qdiv. set (z := / width) in *.
      assert (H1 : height * maxSize * z <= width * maxSize * z).
      { apply Qmult_le_compat_r; [ | lra ].
        apply Qmult_le_compat_r; lra. }
      assert (E1 : width * maxSize * z == maxSize).
      { transitivity (maxSize * (width * z)); [ ring | rewrite Hww; ring ]. }
      assert (H2 : height * maxSize * z <= height * width * z).
      { apply Qmult_le_compat_r; [ | lra ].
        rewrite !(Qmult_comm height). apply Qmult_le_compat_r; lra. }
      assert (E2 : height * width * z == height).
      { transitivity (height * (width * z)); [ ring | rewrite Hww; ring ]. }
      assert (E3 : height * maxSize * z * width == maxSize * height).
      { transitivity (maxSize * height * (width * z)); [ ring | rewrite Hww; ring ]. }
      rewrite E1 in H1. rewrite E2 in H2.
      repeat split; lra.
    + repeat split; try lra; reflexivity.
  - destruct (Qgtb height maxSize) eqn:Hhm;
      [ apply Qgtb_lt in Hhm | apply Qgtb_le in Hhm ]; cbn [fst snd].
    + unfold Qdiv. set (z := / height) in *.
      assert (H1 : width * maxSize * z <= height * maxSize * z).
      { apply Qmult_le_compat_r; [ | lra ].
        apply Qmult_le_compat_r; lra. }
      assert (E1 : height * maxSize * z == maxSize).
      { transitivity (maxSize * (height * z)); [ ring | rewrite Hhh; ring ]. }
      assert (H2 : width * maxSize * z <= width * height * z).
      { apply Qmult_le_compat_r; [ | lra ].
        rewrite !(Qmult_comm width). apply Qmult_le_compat_r; lra. }
      assert (E2 : width * height * z == width).
      { transitivity (width * (height * z)); [ ring | rewrite Hhh; ring ]. }
      assert (E3 : width * maxSize * z * height == maxSize * width).
      { transitivity (maxSize * width * (height * z)); [ ring | rewrite Hhh; ring ]. }
      rewrite E1 in H1. rewrite E2 in H2.
      repeat split; lra.
    + repeat split; try lra; reflexivity.
Qed.

(** ** The store *)

Local Close Scope Q_scope.

Section SortFacts.
Context {A : Type} (compareFn : A -> A -> Z).

Lemma sort_insert_perm (a : A) (l : list A) :
  sort_insert compareFn a l ≡ₚ a :: l.
Proof.
  induction l as [ | b l IH ]; cbn; [ done | ].
  destruct (compareFn a b <=? 0)%Z; [ done | ].
  rewrite IH. apply Permutation_swap.
Qed.

Lemma sort_perm (l : list A) : sort compareFn l ≡ₚ l.
Proof.
  induction l as [ | a l IH ]; cbn; [ done | ].
  by rewrite sort_insert_perm, IH.
Qed.
End SortFacts.

Section SortByKey.
Context {A : Type} (key : A -> Z).

Lemma sort_insert_sorted (a : A) (l : list A) :
  StronglySorted (fun x y => (key x <= key y)%Z) l ->
  StronglySorted (fun x y => (key x <= key y)%Z)
    (sort_insert (fun x y => (key x - key y)%Z) a l).
Proof.
  induction 1 as [ | b l Hl IH Hb ]; cbn.
  - repeat constructor.
  - destruct (Z.leb_spec (key a - key b) 0) as [Hle | Hgt].
    + constructor; [ by constructor | ].
      constructor; [ lia | ].
      eapply Forall_impl; [ exact Hb | ]. intros; cbn in *; lia.
    + constructor; [ exact IH | ].
      rewrite sort_insert_perm. constructor; [ lia | exact Hb ].
Qed.

Lemma sort_sorted (l : list A) :
  StronglySorted (fun x y => (key x <= key y)%Z)
    (sort (fun x y => (key x - key y)%Z) l).
Proof.
  induction l as [ | a l IH ]; cbn; [ constructor | ].
  by apply sort_insert_sorted.
Qed.
End SortByKey.

Lemma elem_of_getAllFromIndex {V} (store : gmap string V) (owner : V -> string)
    (a : string) (v : V) :
  v ∈ getAllFromIndex store owner a
  <-> exists k, store !! k = Some v /\ owner v = a.
Proof.
  unfold getAllFromIndex. rewrite list_elem_of_fmap. split.
  - intros ([k v'] & -> & Hin). rewrite sort_perm in Hin.
    apply list_elem_of_filter in Hin as [Ho Hin].
    apply elem_of_map_to_list in Hin. by exists k.
  - intros (k & Hk & Ho). exists (k, v). split; [ done | ].
    rewrite sort_perm. apply list_elem_of_filter. split; [ done | ].
    by apply elem_of_map_to_list.
Qed.

Section StorageFacts.
Context {B : Type}.
Implicit Types db : Database B.

Lemma fold_delete_spreads (l : list Spread) :
  forall db,
    db_albums (foldl (fun db s => Storage.delete_spreads (spread_id s) db) db l)
      = db_albums db /\
    db_photos (foldl (fun db s => Storage.delete_spreads (spread_id s) db) db l)
      = db_photos db /\
    db_photoBlobs (foldl (fun db s => Storage.delete_spreads (spread_id s) db) db l)
      = db_photoBlobs db /\
    forall k,
      db_spreads (foldl (fun db s => Storage.delete_spreads (spread_id s) db) db l)
        !! k
      = if decide (k ∈ spread_id <$> l) then None else db_spreads db !! k.
Proof.
  induction l as [ | s l IH ]; intros db; cbn [foldl fmap list_fmap].
  - repeat split.
  - destruct (IH (Storage.delete_spreads (spread_id s) db)) as (Ha & Hp & Hb & Hs).
    rewrite Ha, Hp, Hb. repeat split. intros k. rewrite Hs. cbn.
    destruct (decide (k = spread_id s)) as [-> | Hne].
    + rewrite lookup_delete_eq, (decide_True (P := _ ∈ _ :: _));
        [ by destruct (decide _) | apply list_elem_of_here ].
    + rewrite lookup_delete_ne by done.
      destruct (decide (k ∈ spread_id <$> l)) as [Hin | Hin].
      * rewrite decide_True; [ done | by apply list_elem_of_further ].
      * rewrite decide_False; [ done | ].
        intros [? | ?]%elem_of_cons; done.
Qed.

Lemma fold_delete_photos (l : list Photo) :
  forall db,
    db_albums (foldl (fun db p => Storage.delete_photoBlobs (photo_id p)
                                    (Storage.delete_photos (photo_id p) db)) db l)
      = db_albums db /\
    db_spreads (foldl (fun db p => Storage.delete_photoBlobs (photo_id p)
                                     (Storage.delete_photos (photo_id p) db)) db l)
      = db_spreads db /\
    forall k,
      db_photos (foldl (fun db p => Storage.delete_photoBlobs (photo_id p)
                                      (Storage.delete_photos (photo_id p) db)) db l)
        !! k
      = (if decide (k ∈ photo_id <$> l) then None else db_photos db !! k) /\
      db_photoBlobs (foldl (fun db p => Storage.delete_photoBlobs (photo_id p)
                                          (Storage.delete_photos (photo_id p) db)) db l)
        !! k
      = (if decide (k ∈ photo_id <$> l) then None else db_photoBlobs db !! k).
Proof.
  induction l as [ | p l IH ]; intros db; cbn [foldl fmap list_fmap].
  - repeat split.
  - destruct (IH (Storage.delete_photoBlobs (photo_id p)
                    (Storage.delete_photos (photo_id p) db))) as (Ha & Hs & Hk).
    rewrite Ha, Hs. split; [ done | split; [ done | ] ].
    intros k. destruct (Hk k) as [-> ->]. cbn.
    destruct (decide (k = photo_id p)) as [-> | Hne].
    + rewrite !lookup_delete_eq.
      rewrite !(decide_True (P := _ ∈ _ :: _)) by apply list_elem_of_here.
      by destruct (decide _).
    + rewrite !lookup_delete_ne by done.
      destruct (decide (k ∈ photo_id <$> l)) as [Hin | Hin].
      * by rewrite !decide_True by by apply list_elem_of_further.
      * rewrite !decide_False; [ done | | ];
          intros [? | ?]%elem_of_cons; done.
Qed.

(** X20: [deleteAlbum] cascades: it removes the album, every spread and
    photo of the album and the blobs of those photos, and leaves every
    other album, spread, photo and blob as it was. *)
Theorem deleteAlbum_cascade db (id : string) :
  well_keyed db ->
  Storage.getAlbum (Storage.deleteAlbum db id) id = None /\
  (forall a, a <> id ->
     Storage.getAlbum (Storage.deleteAlbum db id) a = Storage.getAlbum db a) /\
  (forall k,
     Storage.getSpread (Storage.deleteAlbum db id) k
     = s ← Storage.getSpread db k;
       if decide (albumId s = id) then None else Some s) /\
  (forall k,
     Storage.getPhoto (Storage.deleteAlbum db id) k
     = p ← Storage.getPhoto db k;
       if decide (photo_albumId p = id) then None else Some p) /\
  (forall k,
     Storage.getPhotoBlob (Storage.deleteAlbum db id) k
     = match Storage.getPhoto db k with
       | Some p => if decide (photo_albumId p = id) then None
                   else Storage.getPhotoBlob db k
       | None => Storage.getPhotoBlob db k
       end) /\
  Storage.getAlbumSpreads (Storage.deleteAlbum db id) id = [] /\
  Storage.getAlbumPhotos (Storage.deleteAlbum db id) id = [].
Proof.
  intros [Hks Hkp].
  unfold Storage.deleteAlbum, Storage.getAlbum, Storage.getSpread,
    Storage.getPhoto, Storage.getPhotoBlob.
  set (spreads := getAllFromIndex (db_spreads db) albumId id).
  destruct (fold_delete_spreads spreads db) as (Ha1 & Hp1 & Hb1 & Hs1).
  set (db1 := foldl _ db spreads) in *.
  set (photos := getAllFromIndex (db_photos db1) photo_albumId id).
  destruct (fold_delete_photos photos db1) as (Ha2 & Hs2 & Hk2).
  set (db2 := foldl _ db1 photos) in *.
  assert (Hspreads : forall k,
    db_spreads db2 !! k
    = s ← db_spreads db !! k; if decide (albumId s = id) then None else Some s).
  { intros k. rewrite Hs2, Hs1.
    destruct (db_spreads db !! k) as [ s | ] eqn:Hk; cbn.
    - destruct (decide (albumId s = id)) as [Ho | Ho].
      + rewrite decide_True; [ done | ].
        apply list_elem_of_fmap. exists s. split; [ by rewrite (Hks k s) | ].
        apply elem_of_getAllFromIndex. by exists k.
      + rewrite decide_False; [ done | ].
        intros (s' & -> & Hin)%list_elem_of_fmap.
        apply elem_of_getAllFromIndex in Hin as (k' & Hk' & Ho').
        rewrite (Hks _ _ Hk') in Hk. congruence.
    - by destruct (decide _). }
  assert (Hinphotos : forall k,
    k ∈ photo_id <$> photos
    <-> exists p, db_photos db !! k = Some p /\ photo_albumId p = id).
  { intros k. unfold photos. rewrite Hp1, list_elem_of_fmap. split.
    - intros (p & -> & Hin).
      apply elem_of_getAllFromIndex in Hin as (k' & Hk' & Ho').
      exists p. by rewrite (Hkp _ _ Hk').
    - intros (p & Hk & Ho). exists p. split; [ by rewrite (Hkp k p) | ].
      apply elem_of_getAllFromIndex. by exists k. }
  assert (Hphotos : forall k,
    db_photos db2 !! k
    = p ← db_photos db !! k;
      if decide (photo_albumId p = id) then None else Some p).
  { intros k. destruct (Hk2 k) as [-> _]. rewrite Hp1.
    destruct (db_photos db !! k) as [ p | ] eqn:Hk; cbn.
    - destruct (decide (photo_albumId p = id)) as [Ho | Ho].
      + rewrite decide_True; [ done | ]. apply Hinphotos. by exists p.
      + rewrite decide_False; [ done | ].
        intros (p' & Hk' & Ho')%Hinphotos. congruence.
    - by destruct (decide _). }
  cbn [Storage.delete_albums db_albums db_spreads db_photos db_photoBlobs].
  split; [ apply lookup_delete_eq | ].
  split; [ intros a Hne; by rewrite lookup_delete_ne, Ha2, Ha1 | ].
  split; [ exact Hspreads | ].
  split; [ exact Hphotos | ].
  split.
  - intros k. destruct (Hk2 k) as [_ ->]. rewrite Hb1.
    destruct (db_photos db !! k) as [ p | ] eqn:Hk.
    + destruct (decide (photo_albumId p = id)) as [Ho | Ho].
      * rewrite decide_True; [ done | ]. apply Hinphotos. by exists p.
      * rewrite decide_False; [ done | ].
        intros (p' & Hk' & Ho')%Hinphotos. congruence.
    + rewrite decide_False; [ done | ].
      intros (p' & Hk' & Ho')%Hinphotos. congruence.
  - split.
    + unfold Storage.getAlbumSpreads.
      cbn [Storage.delete_albums db_spreads].
      assert (Hnil : getAllFromIndex (db_spreads db2) albumId id = []).
      { apply elem_of_nil_inv. intros s Hin.
        apply elem_of_getAllFromIndex in Hin as (k & Hk & Ho).
        rewrite Hspreads in Hk.
        destruct (db_spreads db !! k) as [ s' | ]; cbn in Hk; [ | done ].
        destruct (decide _); congruence. }
      by rewrite Hnil.
    + unfold Storage.getAlbumPhotos.
      cbn [Storage.delete_albums db_photos].
      apply elem_of_nil_inv. intros p Hin.
      apply elem_of_getAllFromIndex in Hin as (k & Hk & Ho).
      rewrite Hphotos in Hk.
      destruct (db_photos db !! k) as [ p' | ]; cbn in Hk; [ | done ].
      destruct (decide _); congruence.
Qed.
End StorageFacts.

Section StorageFacts2.
Context {B : Type}.
Implicit Types db : Database B.

(** X18: [savePhoto] followed by [getPhoto] and [getPhotoBlob] returns
    what was saved and changes no other key; [deletePhoto] then removes
    both the photo and its blob, and restores the database when the id was
    new. *)
Theorem savePhoto_round_trip db (p : Photo) (b : B) :
  Storage.getPhoto (Storage.savePhoto db p b) (photo_id p) = Some p /\
  Storage.getPhotoBlob (Storage.savePhoto db p b) (photo_id p) = Some b /\
  (forall k, k <> photo_id p ->
     Storage.getPhoto (Storage.savePhoto db p b) k = Storage.getPhoto db k /\
     Storage.getPhotoBlob (Storage.savePhoto db p b) k
       = Storage.getPhotoBlob db k) /\
  Storage.getPhoto (Storage.deletePhoto (Storage.savePhoto db p b) (photo_id p))
    (photo_id p) = None /\
  Storage.getPhotoBlob
    (Storage.deletePhoto (Storage.savePhoto db p b) (photo_id p))
    (photo_id p) = None /\
  (Storage.getPhoto db (photo_id p) = None ->
   Storage.getPhotoBlob db (photo_id p) = None ->
   Storage.deletePhoto (Storage.savePhoto db p b) (photo_id p) = db).
Proof.
  unfold Storage.getPhoto, Storage.getPhotoBlob, Storage.deletePhoto,
    Storage.savePhoto, Storage.delete_photoBlobs, Storage.delete_photos.
  cbn [db_photos db_photoBlobs db_albums db_spreads].
  split; [ apply lookup_insert_eq | ].
  split; [ apply lookup_insert_eq | ].
  split; [ intros k Hk; by rewrite !lookup_insert_ne | ].
  split; [ apply lookup_delete_eq | ].
  split; [ apply lookup_delete_eq | ].
  intros Hp Hb. destruct db as [a s ph bl]. cbn in *.
  by rewrite !delete_insert_id.
Qed.

(** X19: [getAlbumSpreads] returns exactly the stored spreads of the
    album, sorted by [orderIndex]; when every record is stored under its
    own id, no spread is returned twice. *)
Theorem getAlbumSpreads_sorted db (id : string) :
  StronglySorted (fun a b => (orderIndex a <= orderIndex b)%Z)
    (Storage.getAlbumSpreads db id) /\
  (forall s, s ∈ Storage.getAlbumSpreads db id
             <-> exists k, db_spreads db !! k = Some s /\ albumId s = id) /\
  (well_keyed db -> NoDup (spread_id <$> Storage.getAlbumSpreads db id)).
Proof.
  unfold Storage.getAlbumSpreads. split; [ apply sort_sorted | ]. split.
  - intros s. rewrite sort_perm. apply elem_of_getAllFromIndex.
  - intros [Hks _]. rewrite sort_perm. unfold getAllFromIndex.
    rewrite sort_perm, <- list_fmap_compose.
    assert (Heq : (spread_id ∘ snd) <$>
              filter (fun kv => albumId kv.2 = id) (map_to_list (db_spreads db))
            = fst <$>
              filter (fun kv => albumId kv.2 = id) (map_to_list (db_spreads db))).
    { apply list_fmap_ext. intros i [k s] Hin. cbn.
      apply list_elem_of_lookup_2, list_elem_of_filter in Hin as [_ Hin].
      apply elem_of_map_to_list in Hin. by apply Hks. }
    rewrite Heq.
    apply (sublist_NoDup _ ((map_to_list (db_spreads db)).*1));
      [ apply NoDup_fst_map_to_list | apply fmap_sublist, sublist_filter ].
Qed.

Lemma deleteAlbum_keeps db (id : string) :
  (forall k s, db_spreads (Storage.deleteAlbum db id) !! k = Some s ->
               db_spreads db !! k = Some s) /\
  (forall k p, db_photos (Storage.deleteAlbum db id) !! k = Some p ->
               db_photos db !! k = Some p).
Proof.
  unfold Storage.deleteAlbum.
  set (spreads := getAllFromIndex (db_spreads db) albumId id).
  destruct (fold_delete_spreads spreads db) as (Ha1 & Hp1 & Hb1 & Hs1).
  set (db1 := foldl _ db spreads) in *.
  set (photos := getAllFromIndex (db_photos db1) photo_albumId id).
  destruct (fold_delete_photos photos db1) as (Ha2 & Hs2 & Hk2).
  set (db2 := foldl _ db1 photos) in *.
  cbn [Storage.delete_albums db_spreads db_photos]. split.
  - intros k s. rewrite Hs2, Hs1. by destruct (decide _).
  - intros k p. destruct (Hk2 k) as [-> _]. rewrite Hp1. by destruct (decide _).
Qed.

Lemma well_keyed_saveSpread db (s : Spread) :
  well_keyed db -> well_keyed (Storage.saveSpread db s).
Proof.
  intros [Hks Hkp]. split; [ | exact Hkp ].
  intros k s'. cbn. intros [[<- <-] | [_ Hk]]%lookup_insert_Some; eauto.
Qed.

Lemma well_keyed_savePhoto db (p : Photo) (b : B) :
  well_keyed db -> well_keyed (Storage.savePhoto db p b).
Proof.
  intros [Hks Hkp]. split; [ exact Hks | ].
  intros k p'. cbn. intros [[<- <-] | [_ Hk]]%lookup_insert_Some; eauto.
Qed.

(** X21: every write of the store keeps the invariant that each spread and
    each photo is stored under its own id. *)
Theorem well_keyed_preserved db :
  well_keyed db ->
  (forall s, well_keyed (Storage.saveSpread db s)) /\
  (forall p b, well_keyed (Storage.savePhoto db p b)) /\
  (forall k, well_keyed (Storage.deleteSpread db k)) /\
  (forall k, well_keyed (Storage.deletePhoto db k)) /\
  (forall k, well_keyed (Storage.deleteAlbum db k)).
Proof.
  intros Hdb. pose proof Hdb as [Hks Hkp].
  split; [ intros s; by apply well_keyed_saveSpread | ].
  split; [ intros p b; by apply well_keyed_savePhoto | ].
  repeat split.
  - intros k' s. cbn. intros [_ Hk]%lookup_delete_Some. eauto.
  - apply Hkp.
  - apply Hks.
  - intros k' p. cbn. intros [_ Hk]%lookup_delete_Some. eauto.
  - intros k' s Hk. apply Hks. by apply (deleteAlbum_keeps db k).
  - intros k' p Hk. apply Hkp. by apply (deleteAlbum_keeps db k).
Qed.
End StorageFacts2.

Lemma well_keyed_empty : well_keyed empty_db.
Proof. split; intros k v Hk; cbn in Hk; by rewrite lookup_empty in Hk. Qed.


(** ** The album editor and the auto-layout dialog *)

(** X22: [handleSelectPhoto] keeps the selection free of duplicates; with
    multi-select it toggles the membership of the photo and leaves the
    other ids alone, and selecting then deselecting restores the
    selection; without multi-select the result is the photo alone, or
    nothing when the photo was the whole selection. *)
Theorem handleSelectPhoto_toggles (photoId : string) (multiSelect : bool)
    (prev : list string) :
  NoDup prev ->
  NoDup (handleSelectPhoto photoId multiSelect prev) /\
  (multiSelect = true ->
   (forall id', id' ∈ handleSelectPhoto photoId true prev
                <-> (id' <> photoId /\ id' ∈ prev)
                    \/ (id' = photoId /\ photoId ∉ prev)) /\
   (photoId ∉ prev ->
    handleSelectPhoto photoId true (handleSelectPhoto photoId true prev) = prev)) /\
  (multiSelect = false ->
   handleSelectPhoto photoId false prev
   = if decide (prev = [ photoId ]) then [] else [ photoId ]).
Proof.
  intros Hnd. split; [ | split ].
  - unfold handleSelectPhoto. destruct multiSelect.
    + destruct (bool_decide_reflect (photoId ∈ prev)) as [Hin | Hin].
      * by apply NoDup_filter.
      * apply NoDup_app. split; [ done | ]. split; [ | apply NoDup_singleton ].
        intros x Hx ->%list_elem_of_singleton. done.
    + destruct (_ && _); [ constructor | apply NoDup_singleton ].
  - intros _. unfold handleSelectPhoto. split.
    + intros id'. destruct (bool_decide_reflect (photoId ∈ prev)) as [Hin | Hin].
      * rewrite list_elem_of_filter. tauto.
      * rewrite elem_of_app, list_elem_of_singleton.
        split; [ | tauto ].
        intros [Hp | ->]; [ left | right ]; split; try done.
        intros ->. done.
    + intros Hnot. rewrite (bool_decide_eq_false_2 (photoId ∈ prev)) by done.
      rewrite bool_decide_eq_true_2 by (apply elem_of_app; right; apply list_elem_of_here).
      rewrite filter_app, filter_cons_False, filter_nil, app_nil_r
        by (intros Hne; by apply Hne).
      clear Hnd. induction prev as [ | a prev IH ]; [ done | ].
      apply not_elem_of_cons in Hnot as [Hne Hnot].
      rewrite filter_cons_True by done. f_equal. by apply IH.
  - intros _. unfold handleSelectPhoto.
    destruct (decide (prev = [ photoId ])) as [-> | Hne].
    + rewrite bool_decide_eq_true_2 by apply list_elem_of_here. reflexivity.
    + destruct (bool_decide_reflect (photoId ∈ prev)) as [Hin | Hin]; [ | done ].
      destruct prev as [ | a [ | b prev ] ]; cbn; try done.
      apply list_elem_of_singleton in Hin as ->. done.
Qed.

Lemma find_template_by_id (t : LayoutTemplate) :
  t ∈ LAYOUT_TEMPLATES ->
  List.find (fun t' => String.eqb (id t') (id t)) LAYOUT_TEMPLATES = Some t.
Proof.
  intros Ht. unfold LAYOUT_TEMPLATES in *.
  repeat (apply elem_of_cons in Ht as [-> | Ht]); [ .. | by apply elem_of_nil in Ht ];
    reflexivity.
Qed.

Lemma find_template_unknown (selected : string) :
  (forall t, t ∈ LAYOUT_TEMPLATES -> id t <> selected) ->
  List.find (fun t' => String.eqb (id t') selected) LAYOUT_TEMPLATES = None.
Proof.
  intros Hno. destruct (List.find _ _) as [ t | ] eqn:Hfind; [ | done ].
  apply find_some in Hfind as [Hin Heq]. apply String.eqb_eq in Heq.
  exfalso. apply (Hno t); [ | done ]. by apply list_elem_of_In.
Qed.

(** Membership in the catalogue, by position. *)
Ltac in_catalogue :=
  unfold LAYOUT_TEMPLATES;
  repeat first [ apply list_elem_of_here | apply list_elem_of_further ].

Section EditorFacts.
Variable uuid : nat -> string.
Context {B : Type}.
Implicit Types db : Database B.

Lemma handleApply_spec (t : LayoutTemplate) (selected : list Photo)
    (album : Album) (n : nat) :
  t ∈ LAYOUT_TEMPLATES ->
  exists (results : list LayoutResult) (n' : nat),
    handleApply uuid (id t) selected album n = (Some results, n') /\
    length results = Nat.min (length selected) (Z.to_nat (photoCount t)) /\
    result_photoId <$> results
      = photo_id <$> take (Z.to_nat (photoCount t)) selected /\
    (fun r => photoId (frameData r)) <$> results = result_photoId <$> results /\
    (fun r => geometry (frameData r)) <$> results
      = take (length selected)
          (generateFrames t (fst (getCanvasDimensions album))
             (snd (getCanvasDimensions album)) (getGutterPixels album)
             (Math_round (dpi album * (2 # 10)))).
Proof.
  intros Ht. unfold handleApply.
  destruct (getCanvasDimensions album) as [w h]. cbn [fst snd].
  rewrite (find_template_by_id t Ht). unfold ubind, uret.
  set (pc := Z.to_nat (photoCount t)).
  assert (Hslice : slice 0 pc selected = take pc selected).
  { unfold slice. by rewrite Nat.sub_0_r, drop_0. }
  rewrite Hslice.
  set (g := getGutterPixels album). set (m := Math_round _).
  destruct (generateFramesForLayout_spec uuid t (take pc selected) w h g m n Ht)
    as (Hids & Hgeo & _).
  pose proof (generateFramesForLayout_length uuid t (take pc selected) w h g m n Ht)
    as Hlen.
  pose proof (generateFrames_length t w h g m Ht) as Hpc.
  destruct (generateFramesForLayout uuid t (take pc selected) w h g m n)
    as [frames n'].
  cbn [fst] in *. rewrite length_take in Hlen.
  assert (Hlen' : length frames = Nat.min (length selected) pc) by lia.
  fold pc in Hids. rewrite take_take, Nat.min_id in Hids.
  assert (Hres : result_photoId <$>
                   imap (fun index frame =>
                     {| result_photoId :=
                          or_empty (photo_id <$> selected !! index);
                        frameData := frame |}) frames
                 = photo_id <$> take pc selected).
  { apply list_eq. intros i.
    rewrite !list_lookup_fmap, list_lookup_imap.
    destruct (frames !! i) as [ f | ] eqn:Hf.
    - apply lookup_lt_Some in Hf as Hi.
      rewrite lookup_take_lt by lia.
      destruct (lookup_lt_is_Some_2 selected i ltac:(lia)) as [p Hp].
      rewrite Hp. cbn. f_equal. apply or_empty_id.
    - apply lookup_ge_None in Hf. cbn.
      symmetry. apply fmap_None, lookup_ge_None. rewrite length_take. lia. }
  eexists _, _. split; [ reflexivity | ].
  split; [ by rewrite length_imap | ].
  split; [ exact Hres | ].
  split.
  - rewrite Hres, <- Hids. apply list_eq. intros i.
    rewrite !list_lookup_fmap, list_lookup_imap.
    by destruct (frames !! i).
  - assert (Htake : take (length (take pc selected)) (generateFrames t w h g m)
                    = take (length selected) (generateFrames t w h g m)).
    { rewrite length_take.
      destruct (Nat.le_gt_cases pc (length selected)).
      - rewrite Nat.min_l by done. rewrite !take_ge by lia. done.
      - by rewrite Nat.min_r by lia. }
    rewrite <- Htake, <- Hgeo. apply list_eq. intros i.
    rewrite !list_lookup_fmap, list_lookup_imap.
    by destruct (frames !! i).
Qed.

Lemma handleApply_unknown (selected : string)
    (photos : list Photo) (album : Album) (n : nat) :
  (forall t, t ∈ LAYOUT_TEMPLATES -> id t <> selected) ->
  handleApply uuid selected photos album n = (None, n).
Proof.
  intros Hno. unfold handleApply. destruct (getCanvasDimensions album).
  by rewrite find_template_unknown.
Qed.
End EditorFacts.

(** X24: with at least one photo selected, the template the dialog first
    selects is applicable and has [min selected.length 4] photos; with no
    photo selected it falls back to the first template although no template
    is applicable. *)
Theorem initialSelectedTemplate_applicable (selected : list Photo) :
  (selected <> [] ->
   exists t : LayoutTemplate,
     initialSelectedTemplate selected = Some (id t) /\
     t ∈ applicableTemplates selected /\
     photoCount t = Z.of_nat (Nat.min (length selected) 4)) /\
  (selected = [] ->
   initialSelectedTemplate selected = Some (id single_full) /\
   applicableTemplates selected = []).
Proof.
  split.
  - intros Hne. unfold initialSelectedTemplate, applicableTemplates.
    assert (Hlen : (1 <= length selected)%nat)
      by (destruct selected; [ done | cbn; lia ]).
    assert (Hmin : (1 <= Nat.min (length selected) 4 <= 4)%nat) by lia.
    assert (Hle : (Nat.min (length selected) 4 <= length selected)%nat) by lia.
    revert Hmin Hle. generalize (Nat.min (length selected) 4). intros k Hk Hle.
    destruct k as [ | [ | [ | [ | [ | k ] ] ] ] ]; try lia.
    + exists single_full. split; [ reflexivity | split; [ | reflexivity ] ].
      apply list_elem_of_filter. split; [ cbn; lia | in_catalogue ].
    + exists two_side_by_side. split; [ reflexivity | split; [ | reflexivity ] ].
      apply list_elem_of_filter. split; [ cbn; lia | in_catalogue ].
    + exists three_one_two. split; [ reflexivity | split; [ | reflexivity ] ].
      apply list_elem_of_filter. split; [ cbn; lia | in_catalogue ].
    + exists four_grid. split; [ reflexivity | split; [ | reflexivity ] ].
      apply list_elem_of_filter. split; [ cbn; lia | in_catalogue ].
  - intros ->. split; reflexivity.
Qed.

Lemma filter_index_from_delete {A} (index : nat) (l : list A) :
  forall k : nat,
    filter_index_from (fun i => negb (i =? k + index)%nat) k l = delete index l.
Proof.
  revert index. induction l as [ | a l IH ]; intros index k; [ done | ].
  cbn [filter_index_from]. destruct index as [ | index ].
  - rewrite Nat.add_0_r, Nat.eqb_refl. cbn.
    clear IH. revert k. induction l as [ | b l IH ]; intros k; [ done | ].
    cbn [filter_index_from].
    replace (S k =? k)%nat with false by (symmetry; apply Nat.eqb_neq; lia).
    cbn. f_equal.
    assert (Hgen : forall j, (k < j)%nat ->
              filter_index_from (fun i => negb (i =? k)%nat) j l = l).
    { clear. induction l as [ | c l IHl ]; intros j Hj; [ done | ].
      cbn [filter_index_from].
      replace (j =? k)%nat with false by (symmetry; apply Nat.eqb_neq; lia).
      cbn. f_equal. apply IHl. lia. }
    apply Hgen. lia.
  - replace (k =? k + S index)%nat with false
      by (symmetry; apply Nat.eqb_neq; lia).
    cbn. f_equal.
    replace (k + S index)%nat with (S k + index)%nat by lia. apply IH.
Qed.

Lemma filter_index_delete {A} (index : nat) (l : list A) :
  filter_index (fun i => negb (i =? index)%nat) l = delete index l.
Proof. apply (filter_index_from_delete index l 0). Qed.

Lemma ordered_by_position_snoc (spreads : list Spread) (s : Spread) :
  ordered_by_position spreads ->
  orderIndex s = Z.of_nat (length spreads) ->
  ordered_by_position (spreads ++ [ s ]).
Proof.
  intros Hord Hs i s' Hi.
  apply lookup_app_Some in Hi as [Hi | [Hge Hi]]; [ by apply Hord | ].
  apply list_lookup_singleton_Some in Hi as [Hi <-].
  rewrite Hs. f_equal. lia.
Qed.

Section HandlerFacts.
Variable uuid : nat -> string.
Context {B : Type}.
Implicit Types db : Database B.

(** X25: [handleAddSpread] does nothing without an album; otherwise it
    appends an empty spread with a fresh id and the next [orderIndex],
    stores it, makes it the current spread, and keeps the spreads numbered
    by position. *)
Theorem handleAddSpread_appends db (st : EditorState) (n : nat) :
  (st_album st = None -> handleAddSpread uuid db st n = (db, st, n)) /\
  (forall album : Album,
     st_album st = Some album ->
     exists (spread : Spread) (st' : EditorState),
       handleAddSpread uuid db st n = (Storage.saveSpread db spread, st', S n) /\
       spread = {| spread_id := uuid n; albumId := album_id album;
                   orderIndex := Z.of_nat (length (st_spreads st));
                   spread_frames := [] |} /\
       st_spreads st' = st_spreads st ++ [ spread ] /\
       st_spreads st' !! st_currentSpreadIndex st' = Some spread /\
       Storage.getSpread (Storage.saveSpread db spread) (uuid n) = Some spread /\
       (ordered_by_position (st_spreads st) ->
        ordered_by_position (st_spreads st'))).
Proof.
  unfold handleAddSpread. split.
  - by intros ->.
  - intros album ->. unfold ubind, uuidv4, uret.
    eexists _, _. split; [ reflexivity | ]. cbn.
    split; [ reflexivity | ]. split; [ reflexivity | ].
    split; [ by rewrite lookup_app_r, Nat.sub_diag | ].
    split; [ apply lookup_insert_eq | ].
    intros Hord. by apply ordered_by_position_snoc.
Qed.

(** X26: [handleDeleteSpread] fails on an index that is out of range;
    otherwise it removes exactly that spread from the editor and the store,
    keeps the other spreads in order, and leaves the current index in
    range while spreads remain. *)
Theorem handleDeleteSpread_removes (index : nat) db (st : EditorState) :
  (st_spreads st !! index = None -> handleDeleteSpread index db st = None) /\
  (forall spread : Spread,
     st_spreads st !! index = Some spread ->
     exists st' : EditorState,
       handleDeleteSpread index db st
         = Some (Storage.deleteSpread db (spread_id spread), st') /\
       st_spreads st' = delete index (st_spreads st) /\
       length (st_spreads st') = (length (st_spreads st) - 1)%nat /\
       (forall i s, st_spreads st' !! i = Some s ->
          st_spreads st !! (if decide (i < index)%nat then i else S i) = Some s) /\
       ((st_currentSpreadIndex st < length (st_spreads st))%nat ->
        st_spreads st' <> [] ->
        (st_currentSpreadIndex st' < length (st_spreads st'))%nat) /\
       Storage.getSpread (Storage.deleteSpread db (spread_id spread))
         (spread_id spread) = None /\
       (forall k, k <> spread_id spread ->
          Storage.getSpread (Storage.deleteSpread db (spread_id spread)) k
          = Storage.getSpread db k)).
Proof.
  unfold handleDeleteSpread. split.
  - by intros ->.
  - intros spread Hs. rewrite Hs.
    apply lookup_lt_Some in Hs as Hlt.
    eexists. split; [ reflexivity | ]. cbn.
    rewrite filter_index_delete.
    split; [ reflexivity | ].
    split; [ rewrite length_delete; [ done | by eexists ] | ].
    split.
    { intros i s Hi. destruct (decide (i < index)%nat).
      - by rewrite list_lookup_delete_lt in Hi.
      - by rewrite list_lookup_delete_ge in Hi by lia. }
    split.
    { intros Hcur Hne.
      assert (Hlen : length (delete index (st_spreads st))
                     = (length (st_spreads st) - 1)%nat)
        by (rewrite length_delete; [ done | by eexists ]).
      assert (Hpos : (0 < length (delete index (st_spreads st)))%nat).
      { destruct (delete index (st_spreads st)); [ done | cbn; lia ]. }
      rewrite Hlen in *.
      destruct (Nat.leb_spec (length (st_spreads st) - 1)
                  (st_currentSpreadIndex st)); lia. }
    split; [ apply lookup_delete_eq | ].
    intros k Hk. by apply lookup_delete_ne.
Qed.

(** X27: adding a spread and deleting it again restores the store and the
    list of spreads; the current spread becomes the last one. *)
Theorem handleAddSpread_then_delete db (st : EditorState) (album : Album)
    (n : nat) :
  st_album st = Some album ->
  Storage.getSpread db (uuid n) = None ->
  exists db1 st1 st2,
    handleAddSpread uuid db st n = (db1, st1, S n) /\
    handleDeleteSpread (length (st_spreads st)) db1 st1 = Some (db, st2) /\
    st_spreads st2 = st_spreads st /\
    st_currentSpreadIndex st2 = (length (st_spreads st) - 1)%nat /\
    st_album st2 = st_album st /\ st_photos st2 = st_photos st /\
    st_selectedPhotoIds st2 = st_selectedPhotoIds st /\
    st_selectedFrameId st2 = st_selectedFrameId st.
Proof.
  intros Halbum Hfresh. unfold handleAddSpread. rewrite Halbum.
  unfold ubind, uuidv4, uret. eexists _, _, _.
  split; [ reflexivity | ].
  unfold handleDeleteSpread.
  cbn [st_spreads st_currentSpreadIndex st_album st_photos
       st_selectedPhotoIds st_selectedFrameId spread_id].
  rewrite lookup_app_r, Nat.sub_diag by done. cbn [lookup list_lookup].
  rewrite filter_index_delete, length_app. cbn [length].
  split.
  - do 2 f_equal. destruct db as [a s p b].
    unfold Storage.deleteSpread, Storage.delete_spreads, Storage.saveSpread.
    cbn in *. f_equal. by apply delete_insert_id.
  - rewrite (delete_middle (st_spreads st) []), app_nil_r.
    repeat split; try reflexivity.
    cbn [st_currentSpreadIndex].
    replace (length (st_spreads st) + 1 - 1)%nat with (length (st_spreads st)) by lia.
    rewrite Nat.leb_refl. lia.
Qed.

Lemma mapi_uuid_layout (l : list LayoutResult) :
  forall k n : nat,
    mapi_uuid
      (fun (f : LayoutResult) (_ : nat) =>
         ubind (uuidv4 uuid) (fun frameId =>
         uret {| frame_id := frameId;
                 photoId := result_photoId f;
                 geometry := geometry (frameData f) |}))
      k l n
    = (imap (fun i f =>
               {| frame_id := uuid (n + i);
                  photoId := result_photoId f;
                  geometry := geometry (frameData f) |}) l,
       (n + length l)%nat).
Proof.
  induction l as [ | a l IH ]; intros k n.
  - cbn. unfold uret. by rewrite Nat.add_0_r.
  - cbn [mapi_uuid imap length]. unfold ubind at 1. unfold uuidv4 at 1.
    unfold ubind at 1, uret at 1. unfold ubind at 1. rewrite IH. unfold uret.
    rewrite !Nat.add_0_r. f_equal; [ | lia ].
    f_equal. apply imap_ext. intros i g _. cbn.
    by rewrite !Nat.add_succ_r.
Qed.

Lemma handleApplyLayout_spec (frames : list LayoutResult) db
    (st : EditorState) (n : nat) (album : Album) :
  st_album st = Some album ->
  exists (newSpread : Spread) (st' : EditorState),
    handleApplyLayout uuid frames db st n
      = (Storage.saveSpread db newSpread, st', (S n + length frames)%nat) /\
    spread_id newSpread = uuid n /\
    albumId newSpread = album_id album /\
    orderIndex newSpread = Z.of_nat (length (st_spreads st)) /\
    photoId <$> spread_frames newSpread = result_photoId <$> frames /\
    geometry <$> spread_frames newSpread
      = (fun r => geometry (frameData r)) <$> frames /\
    frame_id <$> spread_frames newSpread = uuid <$> seq (S n) (length frames) /\
    st_spreads st' = st_spreads st ++ [ newSpread ] /\
    st_spreads st' !! st_currentSpreadIndex st' = Some newSpread /\
    st_selectedPhotoIds st' = [] /\
    Storage.getSpread (Storage.saveSpread db newSpread) (uuid n)
      = Some newSpread /\
    (ordered_by_position (st_spreads st) ->
     ordered_by_position (st_spreads st')).
Proof.
  intros Halbum. unfold handleApplyLayout. rewrite Halbum.
  unfold ubind at 1. unfold uuidv4 at 1. unfold ubind at 1.
  rewrite mapi_uuid_layout. unfold uret.
  eexists _, _. split; [ reflexivity | ].
  cbn [spread_id albumId orderIndex spread_frames st_spreads
       st_currentSpreadIndex st_selectedPhotoIds].
  repeat split.
  - apply list_eq. intros i. rewrite !list_lookup_fmap, list_lookup_imap.
    by destruct (frames !! i).
  - apply list_eq. intros i. rewrite !list_lookup_fmap, list_lookup_imap.
    by destruct (frames !! i).
  - apply list_eq. intros i. rewrite !list_lookup_fmap, list_lookup_imap.
    destruct (frames !! i) as [ f | ] eqn:Hf.
    + apply lookup_lt_Some in Hf. by rewrite lookup_seq_lt.
    + apply lookup_ge_None in Hf. by rewrite lookup_seq_ge.
  - by rewrite lookup_app_r, Nat.sub_diag.
  - apply lookup_insert_eq.
  - intros Hord. by apply ordered_by_position_snoc.
Qed.

(** X23: [handleApply] of the auto-layout dialog does nothing for a
    template id that is not in the catalogue; for a catalogue template it
    hands over one frame per placed photo, [min selected.length photoCount]
    of them, each tagged with the photo id of its frame, with the
    geometries of the template at the album's canvas, gutter and 0.2 inch
    margin. *)
Theorem handleApply_results (selectedTemplate : string)
    (selected : list Photo) (album : Album) (n : nat) :
  ((forall t, t ∈ LAYOUT_TEMPLATES -> id t <> selectedTemplate) ->
   handleApply uuid selectedTemplate selected album n = (None, n)) /\
  (forall t : LayoutTemplate,
     t ∈ LAYOUT_TEMPLATES -> id t = selectedTemplate ->
     exists (results : list LayoutResult) (n' : nat),
       handleApply uuid selectedTemplate selected album n = (Some results, n') /\
       length results = Nat.min (length selected) (Z.to_nat (photoCount t)) /\
       result_photoId <$> results
         = photo_id <$> take (Z.to_nat (photoCount t)) selected /\
       (fun r => photoId (frameData r)) <$> results
         = result_photoId <$> results /\
       (fun r => geometry (frameData r)) <$> results
         = take (length selected)
             (generateFrames t (fst (getCanvasDimensions album))
                (snd (getCanvasDimensions album)) (getGutterPixels album)
                (Math_round (dpi album * (2 # 10))))).
Proof.
  split; [ apply handleApply_unknown | ].
  intros t Ht <-. by apply handleApply_spec.
Qed.

(** X28: [handleApplyLayout] does nothing without an album; otherwise it
    appends one spread with the handed-over frames under fresh ids, in
    order, stores it, makes it current and clears the photo selection. *)
Theorem handleApplyLayout_appends (frames : list LayoutResult) db
    (st : EditorState) (n : nat) :
  (st_album st = None -> handleApplyLayout uuid frames db st n = (db, st, n)) /\
  (forall album : Album,
     st_album st = Some album ->
     exists (newSpread : Spread) (st' : EditorState),
       handleApplyLayout uuid frames db st n
         = (Storage.saveSpread db newSpread, st', (S n + length frames)%nat) /\
       spread_id newSpread = uuid n /\
       albumId newSpread = album_id album /\
       orderIndex newSpread = Z.of_nat (length (st_spreads st)) /\
       photoId <$> spread_frames newSpread = result_photoId <$> frames /\
       geometry <$> spread_frames newSpread
         = (fun r => geometry (frameData r)) <$> frames /\
       frame_id <$> spread_frames newSpread
         = uuid <$> seq (S n) (length frames) /\
       st_spreads st' = st_spreads st ++ [ newSpread ] /\
       st_spreads st' !! st_currentSpreadIndex st' = Some newSpread /\
       st_selectedPhotoIds st' = [] /\
       Storage.getSpread (Storage.saveSpread db newSpread) (uuid n)
         = Some newSpread /\
       (ordered_by_position (st_spreads st) ->
        ordered_by_position (st_spreads st'))).
Proof.
  split.
  - intros Hnone. unfold handleApplyLayout. by rewrite Hnone.
  - intros album Halbum. by apply handleApplyLayout_spec.
Qed.

(** X29: the dialog's [handleApply] followed by the editor's
    [handleApplyLayout] appends one spread that shows the first
    [photoCount] selected photos in the template's rectangles; the selected
    photos are handed over in album order. *)
Theorem auto_layout_places_first_photos (t : LayoutTemplate)
    (album : Album) db (st : EditorState) (n : nat) :
  t ∈ LAYOUT_TEMPLATES ->
  st_album st = Some album ->
  exists (results : list LayoutResult) (n1 : nat) (newSpread : Spread)
         (st' : EditorState) (n2 : nat),
    handleApply uuid (id t) (selectedPhotos st) album n = (Some results, n1) /\
    handleApplyLayout uuid results db st n1
      = (Storage.saveSpread db newSpread, st', n2) /\
    st_spreads st' = st_spreads st ++ [ newSpread ] /\
    photoId <$> spread_frames newSpread
      = photo_id <$> take (Z.to_nat (photoCount t)) (selectedPhotos st) /\
    geometry <$> spread_frames newSpread
      = take (length (selectedPhotos st))
          (generateFrames t (fst (getCanvasDimensions album))
             (snd (getCanvasDimensions album)) (getGutterPixels album)
             (Math_round (dpi album * (2 # 10)))) /\
    selectedPhotos st `sublist_of` st_photos st.
Proof.
  intros Ht Halbum.
  destruct (handleApply_spec uuid t (selectedPhotos st) album n Ht)
    as (results & n1 & Happly & _ & Hids & _ & Hgeo).
  destruct (handleApplyLayout_spec results db st n1 album Halbum)
    as (newSpread & st' & Hlayout & _ & _ & _ & Hids' & Hgeo' & _ & Hsp & _).
  exists results, n1, newSpread, st', (S n1 + length results)%nat.
  split; [ done | ]. split; [ done | ]. split; [ done | ].
  split; [ by rewrite Hids', Hids | ].
  split; [ by rewrite Hgeo', Hgeo | ].
  apply sublist_filter.
Qed.
End HandlerFacts.

(** * Worked instances *)

Local Close Scope Q_scope.

Lemma inchesToPixels_monotone_witness :
  (0 <= inchesToPixels 12 300 /\
   inchesToPixels 12 300 <= inchesToPixels 18 300)%Q.
Proof. apply (inchesToPixels_monotone 12 18 300 300); vm_compute; discriminate. Defined.

Lemma getCanvasDimensions_exact_witness :
  getCanvasDimensions sample_album = (inject_Z (18 * 300), inject_Z (12 * 300)).
Proof. apply (getCanvasDimensions_exact sample_album 18 12 300); reflexivity. Defined.

Lemma frames_inset_by_margin_witness :
  Forall (inset 5400 3600 60) (generateFrames six_mosaic 5400 3600 75 60) /\
  (exists r, r ∈ generateFrames six_mosaic 5400 3600 75 60 /\
             (x r == 60)%Q /\ (y r == 60)%Q) /\
  (exists r, r ∈ generateFrames six_mosaic 5400 3600 75 60 /\
             (x r + width r == 5400 - 60)%Q /\
             (y r + height r == 3600 - 60)%Q).
Proof.
  apply (frames_inset_by_margin six_mosaic 5400 3600 75 60).
  - repeat first [ apply list_elem_of_here | apply list_elem_of_further ].
  - vm_compute; discriminate.
  - vm_compute. repeat constructor; discriminate.
Defined.

Lemma frames_neutral_witness :
  zIndex sample_geometry = Z.of_nat 2 /\ rotation sample_geometry = 0%Q /\
  locked sample_geometry = false /\ imageScale sample_geometry = 1%Q /\
  imageOffsetX sample_geometry = 0%Q /\ imageOffsetY sample_geometry = 0%Q /\
  brightness sample_geometry = 0%Q /\ contrast sample_geometry = 0%Q /\
  temperature sample_geometry = 0%Q /\ vibrance sample_geometry = 0%Q.
Proof.
  apply (frames_neutral four_grid 5400 3600 75 60 2 sample_geometry).
  - in_catalogue.
  - reflexivity.
Defined.

Lemma generateFramesForLayout_frames_witness :
  photoId <$> (generateFramesForLayout pretty three_one_two
                 [ sample_photo "a"; sample_photo "b" ] 5400 3600 75 60 7).1
    = photo_id <$> take (Z.to_nat (photoCount three_one_two))
                     [ sample_photo "a"; sample_photo "b" ] /\
  geometry <$> (generateFramesForLayout pretty three_one_two
                  [ sample_photo "a"; sample_photo "b" ] 5400 3600 75 60 7).1
    = take (length [ sample_photo "a"; sample_photo "b" ])
        (generateFrames three_one_two 5400 3600 75 60) /\
  frame_id <$> (generateFramesForLayout pretty three_one_two
                  [ sample_photo "a"; sample_photo "b" ] 5400 3600 75 60 7).1
    = pretty <$> seq 7 (Nat.min (length [ sample_photo "a"; sample_photo "b" ])
                          (Z.to_nat (photoCount three_one_two))) /\
  (generateFramesForLayout pretty three_one_two
     [ sample_photo "a"; sample_photo "b" ] 5400 3600 75 60 7).2
    = (7 + Nat.min (length [ sample_photo "a"; sample_photo "b" ])
             (Z.to_nat (photoCount three_one_two)))%nat.
Proof.
  apply (generateFramesForLayout_frames pretty three_one_two
           [ sample_photo "a"; sample_photo "b" ] 5400 3600 75 60 7).
  in_catalogue.
Defined.

Lemma autoGenerateSpreads_places_in_order_witness :
  exists spreads : list SpreadFrames,
    autoGenerateSpreads pretty (S (length sample_photos)) sample_photos 2
      sample_album 0 = Returned spreads /\
    placed_photoIds spreads = photo_id <$> sample_photos.
Proof.
  destruct (autoGenerateSpreads_places_in_order pretty sample_photos 2
              sample_album 0) as (spreads & Hrun & _ & Hall); [ lia | ].
  exists spreads. split; [ exact Hrun | apply Hall; lia ].
Defined.

Lemma autoGenerateSpreads_fresh_ids_witness :
  exists spreads : list SpreadFrames,
    autoGenerateSpreads pretty (S (length sample_photos)) sample_photos 2
      sample_album 0 = Returned spreads /\
    NoDup (placed_frameIds spreads).
Proof.
  apply (autoGenerateSpreads_fresh_ids pretty sample_photos 2 sample_album 0).
  - lia.
  - intros a b. apply (inj pretty).
Defined.

Lemma autoGenerateSpreads_edges_witness :
  autoGenerateSpreads pretty 1 [] 2 sample_album 0 = Returned [] /\
  autoGenerateSpreads pretty 5 sample_photos 0 sample_album 0 = OutOfFuel.
Proof.
  split.
  - apply (autoGenerateSpreads_edges pretty [] 2 sample_album 0 0). reflexivity.
  - apply (autoGenerateSpreads_edges pretty sample_photos 0 sample_album 0 5);
      [ discriminate | reflexivity ].
Defined.

Lemma drawImage_covers_frame_witness :
  ((-100000 # 6000) <= x (geometry (sample_frame "f0" "a" 0)) /\
   x (geometry (sample_frame "f0" "a" 0))
     + width (geometry (sample_frame "f0" "a" 0))
     <= (-100000 # 6000) + (400000 # 3000) /\
   0 <= y (geometry (sample_frame "f0" "a" 0)) /\
   y (geometry (sample_frame "f0" "a" 0))
     + height (geometry (sample_frame "f0" "a" 0))
     <= 0 + (300000 # 3000) /\
   ((400000 # 3000) == width (geometry (sample_frame "f0" "a" 0)) \/
    (300000 # 3000) == height (geometry (sample_frame "f0" "a" 0))) /\
   (400000 # 3000) * img_height (mkImage 4000 3000)
     == (300000 # 3000) * img_width (mkImage 4000 3000))%Q.
Proof.
  apply (drawImage_covers_frame sample_env (sample_frame "f0" "a" 0)
           (mkImage 4000 3000) (-100000 # 6000) 0 (400000 # 3000)
           (300000 # 3000)); reflexivity.
Defined.

Lemma handleExport_current_witness :
  Forall2 Qeq
    (progress_values
       (handleExport sample_env sample_album sample_spreads current png 0))
    [ 0%Q; 0%Q; 100%Q ] /\
  drawn_images (handleExport sample_env sample_album sample_spreads current png 0)
    = omap (due_drawImage sample_env)
        (spread_frames (mkSpread "s0" "album" 0 sample_frames)) /\
  downloads (handleExport sample_env sample_album sample_spreads current png 0)
    = (if bool_decide (is_Some (toBlob sample_env 0))
       then [ (album_name sample_album, (0 + 1)%nat, png) ] else []) /\
  ToastSuccess 1 ∈ handleExport sample_env sample_album sample_spreads current png 0 /\
  ToastError ∉ handleExport sample_env sample_album sample_spreads current png 0.
Proof.
  apply (handleExport_current sample_env sample_album sample_spreads png 0
           (mkSpread "s0" "album" 0 sample_frames)).
  reflexivity.
Defined.

Lemma handleExport_current_missing_witness :
  handleExport sample_env sample_album [] current jpeg 0
  = [ SetIsExporting true; SetProgress 0; SetCompleted false;
      SetProgress (inject_Z 0 / inject_Z 1 * 100);
      CreateCanvas (fst (getCanvasDimensions sample_album))
                   (snd (getCanvasDimensions sample_album));
      Ctx (FillStyle "#ffffff");
      Ctx (FillRect 0 0 (fst (getCanvasDimensions sample_album))
                        (snd (getCanvasDimensions sample_album)));
      ConsoleError "Export failed:" "TypeError";
      ToastError;
      SetIsExporting false ].
Proof.
  apply (handleExport_current_missing sample_env sample_album [] jpeg 0).
  reflexivity.
Defined.

Lemma handleExport_all_succeeds_witness :
  handleExport sample_env sample_album [] all png 0
  = [ SetIsExporting true; SetProgress 0; SetCompleted false ] ++ []
      ++ [ SetCompleted true; ToastSuccess 0; SetIsExporting false ].
Proof.
  destruct (handleExport_all_succeeds sample_env sample_album [] png 0)
    as (es & Hrun & _ & Hnone).
  rewrite (Hnone eq_refl) in Hrun. exact Hrun.
Defined.

Lemma safeName_sanitises_witness : safeName "anna_2024" = "anna_2024".
Proof. apply (safeName_sanitises "anna_2024"). reflexivity. Defined.

Lemma thumbnailSize_fits_witness :
  ((thumbnailSize 4000 3000 300).1 <= 300 /\
   (thumbnailSize 4000 3000 300).2 <= 300 /\
   (thumbnailSize 4000 3000 300).1 * 3000
     == (thumbnailSize 4000 3000 300).2 * 4000 /\
   ((thumbnailSize 4000 3000 300).1 == 300 \/
    (thumbnailSize 4000 3000 300).2 == 300))%Q /\
  thumbnailSize 200 100 300 = (200%Q, 100%Q).
Proof.
  split.
  - destruct (thumbnailSize_fits 4000 3000 300)
      as (Hw & Hh & _ & _ & Hratio & _ & Hmax); try reflexivity.
    split; [ exact Hw | ]. split; [ exact Hh | ].
    split; [ exact Hratio | ]. apply Hmax. left. reflexivity.
  - apply (thumbnailSize_fits 200 100 300);
      first [ reflexivity | vm_compute; discriminate ].
Defined.

Lemma savePhoto_round_trip_witness :
  Storage.deletePhoto (Storage.savePhoto empty_db (sample_photo "a") tt) "a"
  = empty_db.
Proof.
  apply (savePhoto_round_trip empty_db (sample_photo "a") tt); reflexivity.
Defined.

Lemma getAlbumSpreads_sorted_witness :
  NoDup (spread_id <$> Storage.getAlbumSpreads sample_db "album").
Proof.
  apply (getAlbumSpreads_sorted sample_db "album").
  apply well_keyed_savePhoto.
  do 2 apply well_keyed_saveSpread. apply well_keyed_empty.
Defined.

Lemma deleteAlbum_cascade_witness :
  Storage.getSpread (Storage.deleteAlbum sample_db "album") "s0" = None /\
  Storage.getPhoto (Storage.deleteAlbum sample_db "album") "a" = None /\
  Storage.getPhotoBlob (Storage.deleteAlbum sample_db "album") "a" = None /\
  Storage.getAlbumSpreads (Storage.deleteAlbum sample_db "album") "album" = [] /\
  Storage.getAlbumPhotos (Storage.deleteAlbum sample_db "album") "album" = [].
Proof.
  destruct (deleteAlbum_cascade sample_db "album")
    as (_ & _ & Hs & Hp & Hb & Hss & Hps).
  { apply well_keyed_savePhoto.
    do 2 apply well_keyed_saveSpread. apply well_keyed_empty. }
  split; [ rewrite Hs; reflexivity | ].
  split; [ rewrite Hp; reflexivity | ].
  split; [ rewrite Hb; reflexivity | ].
  split; [ exact Hss | exact Hps ].
Defined.

Lemma well_keyed_preserved_witness :
  (forall s, well_keyed (Storage.saveSpread sample_db s)) /\
  (forall p b, well_keyed (Storage.savePhoto sample_db p b)) /\
  (forall k, well_keyed (Storage.deleteSpread sample_db k)) /\
  (forall k, well_keyed (Storage.deletePhoto sample_db k)) /\
  (forall k, well_keyed (Storage.deleteAlbum sample_db k)).
Proof.
  apply (well_keyed_preserved sample_db).
  apply well_keyed_savePhoto.
  do 2 apply well_keyed_saveSpread. apply well_keyed_empty.
Defined.

Lemma handleSelectPhoto_toggles_witness :
  NoDup (handleSelectPhoto "b" true [ "c"; "a" ]) /\
  handleSelectPhoto "b" true (handleSelectPhoto "b" true [ "c"; "a" ])
  = [ "c"; "a" ].
Proof.
  destruct (handleSelectPhoto_toggles "b" true [ "c"; "a" ])
    as (Hnodup & Hmulti & _).
  { compute_done. }
  split; [ exact Hnodup | ].
  apply Hmulti; [ reflexivity | compute_done ].
Defined.

Lemma handleApply_results_witness :
  handleApply pretty "five-row" sample_photos sample_album 0 = (None, 0%nat) /\
  exists (results : list LayoutResult) (n' : nat),
    handleApply pretty "four-grid" sample_photos sample_album 0
      = (Some results, n') /\
    length results
      = Nat.min (length sample_photos) (Z.to_nat (photoCount four_grid)) /\
    result_photoId <$> results
      = photo_id <$> take (Z.to_nat (photoCount four_grid)) sample_photos /\
    (fun r => photoId (frameData r)) <$> results
      = result_photoId <$> results /\
    (fun r => geometry (frameData r)) <$> results
      = take (length sample_photos)
          (generateFrames four_grid (fst (getCanvasDimensions sample_album))
             (snd (getCanvasDimensions sample_album))
             (getGutterPixels sample_album)
             (Math_round (dpi sample_album * (2 # 10)))).
Proof.
  split.
  - apply (proj1 (handleApply_results pretty "five-row" sample_photos
                     sample_album 0)).
    intros t Ht. unfold LAYOUT_TEMPLATES in Ht.
    repeat (apply elem_of_cons in Ht as [-> | Ht]; [ discriminate | ]).
    by apply elem_of_nil in Ht.
  - apply (proj2 (handleApply_results pretty "four-grid" sample_photos
                     sample_album 0) four_grid).
    + in_catalogue.
    + reflexivity.
Defined.

Lemma initialSelectedTemplate_applicable_witness :
  (exists t : LayoutTemplate,
     initialSelectedTemplate sample_photos = Some (id t) /\
     t ∈ applicableTemplates sample_photos /\
     photoCount t = Z.of_nat (Nat.min (length sample_photos) 4)) /\
  initialSelectedTemplate [] = Some (id single_full) /\
  applicableTemplates [] = [].
Proof.
  split.
  - apply (initialSelectedTemplate_applicable sample_photos). discriminate.
  - apply (initialSelectedTemplate_applicable []). reflexivity.
Defined.

Lemma handleAddSpread_appends_witness :
  exists (spread : Spread) (st' : EditorState),
    handleAddSpread pretty sample_db sample_state 0
      = (Storage.saveSpread sample_db spread, st', 1%nat) /\
    spread = {| spread_id := pretty 0%nat; albumId := album_id sample_album;
                orderIndex := Z.of_nat (length (st_spreads sample_state));
                spread_frames := [] |} /\
    st_spreads st' = st_spreads sample_state ++ [ spread ] /\
    st_spreads st' !! st_currentSpreadIndex st' = Some spread /\
    Storage.getSpread (Storage.saveSpread sample_db spread) (pretty 0%nat)
      = Some spread /\
    ordered_by_position (st_spreads st').
Proof.
  destruct (handleAddSpread_appends pretty sample_db sample_state 0)
    as (_ & Hadd).
  destruct (Hadd sample_album eq_refl)
    as (spread & st' & Hrun & Hspread & Hlist & Hcur & Hget & Hord).
  exists spread, st'.
  split; [ exact Hrun | ]. split; [ exact Hspread | ].
  split; [ exact Hlist | ]. split; [ exact Hcur | ].
  split; [ exact Hget | ].
  apply Hord. intros [ | [ | i ] ] s Hs; cbn in Hs; try discriminate;
    by injection Hs as <-.
Defined.

Lemma handleDeleteSpread_removes_witness :
  exists st' : EditorState,
    handleDeleteSpread 0 sample_db sample_state
      = Some (Storage.deleteSpread sample_db "s0", st') /\
    st_spreads st' = [ sample_spread "s1" 1 ] /\
    (st_currentSpreadIndex st' < length (st_spreads st'))%nat /\
    Storage.getSpread (Storage.deleteSpread sample_db "s0") "s0" = None /\
    Storage.getSpread (Storage.deleteSpread sample_db "s0") "s1"
      = Storage.getSpread sample_db "s1".
Proof.
  destruct (handleDeleteSpread_removes 0 sample_db sample_state) as (_ & Hdel).
  destruct (Hdel (sample_spread "s0" 0) eq_refl)
    as (st' & Hrun & Hlist & _ & _ & Hcur & Hget & Hother).
  exists st'.
  split; [ exact Hrun | ]. split; [ exact Hlist | ].
  split; [ apply Hcur; [ cbn; lia | rewrite Hlist; discriminate ] | ].
  split; [ exact Hget | apply Hother; discriminate ].
Defined.

Lemma handleAddSpread_then_delete_witness :
  exists db1 st1 st2,
    handleAddSpread pretty sample_db sample_state 0 = (db1, st1, 1%nat) /\
    handleDeleteSpread (length (st_spreads sample_state)) db1 st1
      = Some (sample_db, st2) /\
    st_spreads st2 = st_spreads sample_state /\
    st_currentSpreadIndex st2 = (length (st_spreads sample_state) - 1)%nat /\
    st_album st2 = st_album sample_state /\
    st_photos st2 = st_photos sample_state /\
    st_selectedPhotoIds st2 = st_selectedPhotoIds sample_state /\
    st_selectedFrameId st2 = st_selectedFrameId sample_state.
Proof.
  apply (handleAddSpread_then_delete pretty sample_db sample_state
           sample_album 0); reflexivity.
Defined.

Lemma handleApplyLayout_appends_witness :
  exists (newSpread : Spread) (st' : EditorState),
    handleApplyLayout pretty sample_results sample_db sample_state 0
      = (Storage.saveSpread sample_db newSpread, st',
         (1 + length sample_results)%nat) /\
    spread_id newSpread = pretty 0%nat /\
    albumId newSpread = album_id sample_album /\
    orderIndex newSpread = Z.of_nat (length (st_spreads sample_state)) /\
    photoId <$> spread_frames newSpread = result_photoId <$> sample_results /\
    geometry <$> spread_frames newSpread
      = (fun r => geometry (frameData r)) <$> sample_results /\
    frame_id <$> spread_frames newSpread
      = pretty <$> seq 1 (length sample_results) /\
    st_spreads st' = st_spreads sample_state ++ [ newSpread ] /\
    st_spreads st' !! st_currentSpreadIndex st' = Some newSpread /\
    st_selectedPhotoIds st' = [] /\
    Storage.getSpread (Storage.saveSpread sample_db newSpread) (pretty 0%nat)
      = Some newSpread /\
    ordered_by_position (st_spreads st').
Proof.
  destruct (handleApplyLayout_appends pretty sample_results sample_db
              sample_state 0) as (_ & Happly).
  destruct (Happly sample_album eq_refl)
    as (newSpread & st' & Hrun & Hid & Halbum & Horder & Hphotos & Hgeo
        & Hframes & Hlist & Hcur & Hsel & Hget & Hord).
  exists newSpread, st'.
  split; [ exact Hrun | ]. split; [ exact Hid | ]. split; [ exact Halbum | ].
  split; [ exact Horder | ]. split; [ exact Hphotos | ].
  split; [ exact Hgeo | ]. split; [ exact Hframes | ].
  split; [ exact Hlist | ]. split; [ exact Hcur | ]. split; [ exact Hsel | ].
  split; [ exact Hget | ].
  apply Hord. intros [ | [ | i ] ] s Hs; cbn in Hs; try discriminate;
    by injection Hs as <-.
Defined.

Lemma auto_layout_places_first_photos_witness :
  exists (results : list LayoutResult) (n1 : nat) (newSpread : Spread)
         (st' : EditorState) (n2 : nat),
    handleApply pretty (id single_full) (selectedPhotos sample_state)
      sample_album 0 = (Some results, n1) /\
    handleApplyLayout pretty results sample_db sample_state n1
      = (Storage.saveSpread sample_db newSpread, st', n2) /\
    st_spreads st' = st_spreads sample_state ++ [ newSpread ] /\
    photoId <$> spread_frames newSpread
      = photo_id <$> take (Z.to_nat (photoCount single_full))
                       (selectedPhotos sample_state) /\
    geometry <$> spread_frames newSpread
      = take (length (selectedPhotos sample_state))
          (generateFrames single_full (fst (getCanvasDimensions sample_album))
             (snd (getCanvasDimensions sample_album))
             (getGutterPixels sample_album)
             (Math_round (dpi sample_album * (2 # 10)))) /\
    selectedPhotos sample_state `sublist_of` st_photos sample_state.
Proof.
  apply (auto_layout_places_first_photos pretty single_full sample_album
           sample_db sample_state 0).
  - in_catalogue.
  - reflexivity.
Defined.
